(** * The Packs pack: formulas and sync tables of [src/packs/pack.ts]

    A shallow embedding of the formulas registered by [pack.ts] (Pack,
    SyncPacks, SyncMyPacks with its update path, SourceCode and the two
    [propertyOptions] dispatchers), followed by the properties the
    specification states about them.

    The formulas are [async] JavaScript functions.  They are embedded in a
    small monad that records, in program order, every effect the formula
    causes (fetches issued, asynchronous jobs started, joins awaited) next to
    the value it returns or the error it throws.  Everything the formulas
    import and that this repository does not define in [pack.ts] (the SDK, the
    host's fetcher, the helpers and constants modules) is collected in one
    record, [Env], over which the whole development is parameterised. *)

From Stdlib Require Import String Ascii List ZArith Bool Arith Lia DecimalString.
Import ListNotations.
Local Open Scope string_scope.
Local Open Scope list_scope.
Set Warnings "-register-all".

(* ------------------------------------------------------------------------- *)
(** ** JavaScript values *)

Module Js.

(** JSON values.  [undefined] is the [None] of [option json]. *)
Inductive json : Type :=
| JNull
| JBool (b : bool)
| JNum (n : Z)
| JStr (s : string)
| JArr (elems : list json)
| JObj (props : list (string * json)).

(** Property lookup in an object literal, first binding wins. *)
Fixpoint assoc {A : Type} (k : string) (ps : list (string * A)) : option A :=
  match ps with
  | [] => None
  | (k', v) :: rest => if String.eqb k k' then Some v else assoc k rest
  end.

(** [v.k] on a value that is not null: own property of an object,
    [undefined] on primitives (arrays are only read through [as_array]). *)
Definition get (k : string) (v : json) : option json :=
  match v with
  | JObj ps => assoc k ps
  | _ => None
  end.

(** [v?.k] *)
Definition get_opt (k : string) (v : option json) : option json :=
  match v with
  | None | Some JNull => None
  | Some o => get k o
  end.

(** JavaScript truthiness, as tested by [if (x)] and [!x]. *)
Definition truthy (v : option json) : bool :=
  match v with
  | None => false
  | Some JNull => false
  | Some (JBool b) => b
  | Some (JNum n) => negb (n =? 0)%Z
  | Some (JStr s) => negb (s =? "")
  | Some (JArr _) => true
  | Some (JObj _) => true
  end.

(** The fields the listing API and the schemas type as arrays ([items],
    [categories]) are read through this lens: an array yields its elements,
    a missing field [None].  A value of another type is outside those types
    and is read as missing. *)
Definition as_array (v : option json) : option (list json) :=
  match v with
  | Some (JArr l) => Some l
  | _ => None
  end.

(** SameValueZero, the comparison of [Array.prototype.includes]: primitives
    by value; arrays and objects by reference, and two values that were
    deserialised separately are never the same reference. *)
Definition same_value_zero (a b : json) : bool :=
  match a, b with
  | JNull, JNull => true
  | JBool x, JBool y => Bool.eqb x y
  | JNum x, JNum y => (x =? y)%Z
  | JStr x, JStr y => (x =? y)
  | _, _ => false
  end.

(** [l.includes(x)] *)
Definition includes (x : json) (l : list json) : bool :=
  existsb (same_value_zero x) l.

(** [l.includes(k)] on an array of strings. *)
Definition includes_str (k : string) (l : list string) : bool :=
  existsb (String.eqb k) l.

(** A function that mutates its argument in place is embedded by the state
    in which it leaves that argument; it cannot change a primitive. *)
Definition in_place (f : json -> json) (v : json) : json :=
  match v with
  | JObj _ | JArr _ => f v
  | _ => v
  end.

End Js.
Export Js.

(* ------------------------------------------------------------------------- *)
(** ** Errors, effects and the formula monad *)

Inductive error : Type :=
| UserVisibleError (message : string)   (* new coda.UserVisibleError(...) *)
| Error (message : string)              (* new Error(...) *)
| TypeError (message : string)          (* thrown by the runtime *)
| ConfigurationError (key : string)     (* the registry's unknown-key failure *)
| TransportError (message : string).    (* a fetch or remote call that fails *)

(** What a call comes to: the value it returns or the error it throws (for
    an [async] function: what its promise resolves or rejects with). *)
Inductive attempt (A : Type) : Type :=
| Returns (a : A)
| Throws (e : error).
Arguments Returns {A} a.
Arguments Throws {A} e.

(** The argument of [context.fetcher.fetch]. *)
Record FetchRequest : Type := {
  method : string;
  url : option json;
  headers : list (string * string);
  body : option string;
  disableAuthentication : bool
}.

Module Response.
Record t : Type := { status : Z; body : json }.
End Response.

(** Asynchronous units of work a formula starts without awaiting them at
    once: the promise is pushed on a [jobs] array and joined later. *)
Inductive job : Type :=
| RemoveCategory (packId : option json) (category : json)
| AddCategory (packId : option json) (category : json)
| Enrich (key : string).

(** Helpers that [pack.ts] awaits on the spot. *)
Inductive helper_call : Type :=
| GetCategories
| GetVersions (packId : json)
| GetFiles (packId : json) (version : option json).

Inductive event : Type :=
| EvFetch (r : FetchRequest)            (* context.fetcher.fetch(r) issued *)
| EvStart (j : job)                     (* the async function of j is called *)
| EvAwaitAll (js : list job)            (* await Promise.all(jobs) *)
| EvAwaitAllSettled (js : list job)     (* await Promise.allSettled(jobs) *)
| EvHelper (h : helper_call).           (* await helper(...) *)

(** How a started job ends, and when (a logical clock; only the order of
    the instants matters). *)
Inductive settlement : Type :=
| Fulfilled (at_ : nat)
| Rejected (at_ : nat) (reason : error).

Record promise : Type := { pjob : job; state : settlement }.

(** A formula run: the effects in program order, and the outcome. *)
Definition M (A : Type) : Type := (list event * attempt A)%type.

Definition ret {A : Type} (a : A) : M A := ([], Returns a).
Definition throw {A : Type} (e : error) : M A := ([], Throws e).
Definition lift {A : Type} (r : attempt A) : M A := ([], r).

Definition bind {A B : Type} (m : M A) (f : A -> M B) : M B :=
  match m with
  | (t, Returns a) => let (t', r) := f a in (t ++ t', r)
  | (t, Throws e) => (t, Throws e)
  end.

Declare Scope formula_scope.
Delimit Scope formula_scope with formula.
Notation "x <- c1 ;; c2" := (bind c1 (fun x => c2))
  (at level 61, c1 at next level, right associativity) : formula_scope.
Notation "' pat <- c1 ;; c2" := (bind c1 (fun x => match x with pat => c2 end))
  (at level 61, pat pattern, c1 at next level, right associativity) : formula_scope.
Notation "c1 ;;; c2" := (bind c1 (fun _ => c2))
  (at level 61, right associativity) : formula_scope.
Local Open Scope formula_scope.

Definition trace {A : Type} (m : M A) : list event := fst m.
Definition outcome {A : Type} (m : M A) : attempt A := snd m.

(** [Promise.all]: fulfils when every promise fulfils, and rejects with the
    reason of the promise that rejects first (ties go to the earlier array
    position). *)
Fixpoint first_rejection (ps : list promise) : option (nat * error) :=
  match ps with
  | [] => None
  | p :: rest =>
      match state p, first_rejection rest with
      | Fulfilled _, r => r
      | Rejected t e, None => Some (t, e)
      | Rejected t e, Some (t', e') =>
          if (t <=? t')%nat then Some (t, e) else Some (t', e')
      end
  end.

Definition Promise_all (ps : list promise) : attempt unit :=
  match first_rejection ps with
  | None => Returns tt
  | Some (_, e) => Throws e
  end.

Definition await_all (ps : list promise) : M unit :=
  ([EvAwaitAll (map pjob ps)], Promise_all ps).

(** [Promise.allSettled] never rejects. *)
Definition await_allSettled (js : list job) : M unit :=
  ([EvAwaitAllSettled js], Returns tt).

(* ------------------------------------------------------------------------- *)
(** ** What [pack.ts] imports *)

(** The execution context: [context.invocationLocation.protocolAndHost],
    [context.sync.continuation] and [context.propertyName]. *)
Record Context : Type := {
  protocolAndHost : string;
  sync_continuation : option json;
  propertyName : string
}.

(** Modelled from the spec: the enrichment handlers registered in
    [./constants] (not part of [pack.ts]).  A handler receives the page and
    "mutates the Item sequence in place by attaching additional fields"; "a
    failing enrichment simply leaves its fields absent".  A run of a handler
    is therefore either the page as it leaves it, or a failure that leaves
    the page as it found it. *)
Inductive enrichment : Type :=
| Attached (page : list json)
| Failed (reason : error).

(** An entry of the [MetadataTypes] registry. *)
Record MetadataSettings : Type := {
  name : string;
  callback : Context -> list json -> enrichment
}.

(** Everything [pack.ts] imports.  A helper that can throw or reject gives
    an [attempt]; [formatItem] and [unformatItem] mutate their argument and
    are given by the state they leave it in; [removeCategory] and
    [addCategory] are async functions, given by how their promise settles;
    whatever requests the helpers make on their own stays inside them. *)
Record Env : Type := {
  (* @codahq/packs-sdk *)
  joinUrl : list string -> string;
  withQueryParams : string -> list (string * json) -> string;
  (* the JavaScript runtime *)
  JSON_stringify : json -> string;
  String_ : option json -> string;
  (* escape-html *)
  escape : json -> string;
  (* the host's fetcher *)
  fetch : FetchRequest -> attempt Response.t;
  (* ./helpers *)
  getPackId : Context -> string -> attempt json;
  formatItem : Context -> json -> json;
  unformatItem : json -> json;
  getCategories : Context -> attempt json;
  getVersions : Context -> json -> attempt (list json);
  getFiles : Context -> json -> option json -> attempt (option (list json));
  removeCategory : Context -> option json -> json -> settlement;
  addCategory : Context -> option json -> json -> settlement;
  (* ./constants *)
  MetadataTypes : list (string * MetadataSettings)
}.

(** What a sync formula returns: [{ result, continuation }]; a key that is
    absent or [undefined] is [None]. *)
Record SyncResult : Type := {
  result : list json;
  continuation : option json
}.

(** One pending row edit handed to [executeUpdate]. *)
Record SyncUpdate : Type := {
  previousValue : json;
  newValue : json;
  updatedFields : list string
}.

(** The arguments of SyncPacks; [metadata] is optional. *)
Record SyncPacksArgs : Type := {
  includePublished : bool;
  includeWorkspace : bool;
  includePrivate : bool;
  metadata : option (list string)
}.

(* ------------------------------------------------------------------------- *)
(** ** The formulas *)

Section Formulas.

Variable E : Env.

(** [await context.fetcher.fetch(r)] *)
Definition fetcher_fetch (r : FetchRequest) : M Response.t :=
  ([EvFetch r], fetch E r).

(** [await helper(...)] *)
Definition await_helper {A : Type} (h : helper_call) (r : attempt A) : M A :=
  ([EvHelper h], r).

(** Calling an async function without awaiting it: the job starts now, the
    promise is kept for the join. *)
Definition start (j : job) (s : settlement) : M promise :=
  ([EvStart j], Returns {| pjob := j; state := s |}).

(** [o.k] where [o] may be null. *)
Definition member (k : string) (o : json) : M (option json) :=
  match o with
  | JNull => throw (TypeError ("Cannot read properties of null (reading '" ++ k ++ "')"))
  | _ => ret (get k o)
  end.

(** Modelled from the spec: [getMetdataSettings] of [./helpers] (not part of
    [pack.ts]): the "registry of enrichment handlers" is "looked up by key;
    unknown key fails with ConfigurationError". *)
Definition getMetdataSettings (key : string) : attempt MetadataSettings :=
  match assoc key (MetadataTypes E) with
  | Some settings => Returns settings
  | None => Throws (ConfigurationError key)
  end.

(** [for (let item of items) { formatItem(context, item); }] *)
Definition format_each (context : Context) (items : option json) : M (list json) :=
  match as_array items with
  | None => throw (TypeError "items is not iterable")
  | Some l => ret (map (in_place (formatItem E context)) l)
  end.

(** [settings.callback(context, items)]: the handler starts and, whenever it
    gets to it, attaches its fields to the shared page.  Handlers attach
    fields of their own, so the page is threaded through them in call
    order. *)
Definition start_callback (key : string) (settings : MetadataSettings)
    (context : Context) (items : list json) : M (list json) :=
  ([EvStart (Enrich key)],
   Returns (match callback settings context items with
            | Attached page => page
            | Failed _ => items
            end)).

(** [for (let key of metadata) {
       let settings = getMetdataSettings(key);
       jobs.push(settings.callback(context, items)); }] *)
Fixpoint start_enrichments (context : Context) (keys : list string)
    (items : list json) (jobs : list job) : M (list json * list job) :=
  match keys with
  | [] => ret (items, jobs)
  | key :: rest =>
      settings <- lift (getMetdataSettings key) ;;
      items' <- start_callback key settings context items ;;
      start_enrichments context rest items' (jobs ++ [Enrich key])
  end.

(** [if (nextPageLink) { continuation = { url: nextPageLink }; }] *)
Definition derive_continuation (nextPageLink : option json) : option json :=
  match nextPageLink with
  | Some link => if truthy nextPageLink then Some (JObj [("url", link)]) else None
  | None => None
  end.

(** [{ method: "GET", url: url }] *)
Definition GET (url : option json) : FetchRequest :=
  {| method := "GET"; url := url; headers := []; body := None;
     disableAuthentication := false |}.

(** The URL the Pack formula fetches. *)
Definition Pack_url (context : Context) (packId : json) : option json :=
  let baseUrl := joinUrl E [protocolAndHost context; "apis/v1/packs/listings"] in
  Some (JStr (withQueryParams E baseUrl [("packIds", packId)])).

(** The URL SyncPacks fetches:
    [let url = context.sync.continuation?.url as string;
     if (!url) { ... url = coda.withQueryParams(baseUrl, {...}); }] *)
Definition SyncPacks_url (args : SyncPacksArgs) (context : Context) : option json :=
  let url := get_opt "url" (sync_continuation context) in
  if negb (truthy url) then
    let baseUrl := joinUrl E [protocolAndHost context; "apis/v1/packs/listings"] in
    Some (JStr (withQueryParams E baseUrl
      [("excludePublicPacks", JBool (negb (includePublished args)));
       ("excludeWorkspaceAcls", JBool (negb (includeWorkspace args)));
       ("excludeIndividualAcls", JBool (negb (includePrivate args)));
       ("limit", JNum 20)]))
  else url.

(** The URL SyncMyPacks fetches. *)
Definition SyncMyPacks_url (context : Context) : option json :=
  let url := get_opt "url" (sync_continuation context) in
  if negb (truthy url) then
    let baseUrl := joinUrl E [protocolAndHost context; "apis/v1/packs"] in
    Some (JStr (withQueryParams E baseUrl
      [("accessTypes", JStr "edit,admin"); ("limit", JNum 20)]))
  else url.

(** The Pack formula. *)
Definition Pack_execute (packIdOrUrl : string) (context : Context) : M json :=
  packId <- lift (getPackId E context packIdOrUrl) ;;
  response <- fetcher_fetch (GET (Pack_url context packId)) ;;
  items <- member "items" (Response.body response) ;;
  match as_array items with
  | None | Some [] =>
      throw (UserVisibleError ("Pack not found: " ++ packIdOrUrl))
  | Some (item :: rest) =>
      let item := in_place (formatItem E context) item in
      ' (items, jobs) <-
        start_enrichments context (map fst (MetadataTypes E)) (item :: rest) [] ;;
      await_allSettled jobs ;;;
      ret (nth 0 items item)
  end.

(** [propertyOptions] of the Packs sync table. *)
Definition Packs_propertyOptions (context : Context) : M json :=
  if propertyName context =? "categories"
  then await_helper GetCategories (getCategories E context)
  else throw (UserVisibleError ("Unknown property: " ++ propertyName context)).

(** The SyncPacks formula. *)
Definition SyncPacks_execute (args : SyncPacksArgs) (context : Context)
    : M SyncResult :=
  let metadata := match metadata args with Some m => m | None => [] end in
  response <- fetcher_fetch (GET (SyncPacks_url args context)) ;;
  items <- member "items" (Response.body response) ;;
  nextPageLink <- member "nextPageLink" (Response.body response) ;;
  items <- format_each context items ;;
  ' (items, jobs) <- start_enrichments context metadata items [] ;;
  await_allSettled jobs ;;;
  ret {| result := items; continuation := derive_continuation nextPageLink |}.

(** [propertyOptions] of the MyPacks sync table. *)
Definition MyPacks_propertyOptions (context : Context) : M json :=
  if propertyName context =? "categories"
  then await_helper GetCategories (getCategories E context)
  else throw (UserVisibleError ("Unknown property: " ++ propertyName context)).

(** The SyncMyPacks formula. *)
Definition SyncMyPacks_execute (context : Context) : M SyncResult :=
  response <- fetcher_fetch (GET (SyncMyPacks_url context)) ;;
  items <- member "items" (Response.body response) ;;
  nextPageLink <- member "nextPageLink" (Response.body response) ;;
  items <- format_each context items ;;
  ret {| result := items; continuation := derive_continuation nextPageLink |}.

(** [for (let x of v)] over a field typed as an array. *)
Definition for_of (what : string) (v : option json) : M (list json) :=
  match as_array v with
  | None => throw (TypeError (what ++ " is not iterable"))
  | Some l => ret l
  end.

(** [v.includes(x)] on a field typed as an array. *)
Definition includes_in (x : json) (v : option json) : M bool :=
  match as_array v with
  | None => throw (TypeError "Cannot read properties of undefined (reading 'includes')")
  | Some l => ret (includes x l)
  end.

(** [Object.entries(o)] of an object ([update.newValue], which the SDK
    types as an object). *)
Definition entries (o : json) : list (string * json) :=
  match o with
  | JObj ps => ps
  | _ => []
  end.

(** [for (let category of update.previousValue.categories) {
       if (!update.newValue.categories.includes(category)) {
         jobs.push(removeCategory(context, pack.packId, category)); } }] *)
Fixpoint push_removals (context : Context) (update : SyncUpdate) (pack : json)
    (categories : list json) (jobs : list promise) : M (list promise) :=
  match categories with
  | [] => ret jobs
  | category :: rest =>
      kept <- includes_in category (get "categories" (newValue update)) ;;
      if negb kept then
        p <- start (RemoveCategory (get "packId" pack) category)
                   (removeCategory E context (get "packId" pack) category) ;;
        push_removals context update pack rest (jobs ++ [p])
      else push_removals context update pack rest jobs
  end.

(** [for (let category of update.newValue.categories) {
       if (!update.previousValue.categories.includes(category)) {
         jobs.push(addCategory(context, pack.packId, category)); } }] *)
Fixpoint push_additions (context : Context) (update : SyncUpdate) (pack : json)
    (categories : list json) (jobs : list promise) : M (list promise) :=
  match categories with
  | [] => ret jobs
  | category :: rest =>
      had <- includes_in category (get "categories" (previousValue update)) ;;
      if negb had then
        p <- start (AddCategory (get "packId" pack) category)
                   (addCategory E context (get "packId" pack) category) ;;
        push_additions context update pack rest (jobs ++ [p])
      else push_additions context update pack rest jobs
  end.

(** The body of [if (update.updatedFields.includes("categories")) { ... }]. *)
Definition update_categories (context : Context) (update : SyncUpdate)
    (pack : json) : M unit :=
  let jobs := [] in
  previous <- for_of "update.previousValue.categories"
                (get "categories" (previousValue update)) ;;
  jobs <- push_removals context update pack previous jobs ;;
  new <- for_of "update.newValue.categories"
           (get "categories" (newValue update)) ;;
  jobs <- push_additions context update pack new jobs ;;
  await_all jobs.

(** The request that sends the edited fields back. *)
Definition patch_request (context : Context) (update : SyncUpdate) : FetchRequest :=
  let host := protocolAndHost context in
  (* unformatItem(pack) has run on the object that update.newValue names *)
  let pack := in_place (unformatItem E) (newValue update) in
  let body :=
    JObj (filter (fun kv => includes_str (fst kv) (updatedFields update))
                 (entries pack)) in
  {| method := "PATCH";
     url := Some (JStr (joinUrl E [host; "apis/v1/packs";
                                   String_ E (get "packId" pack)]));
     headers := [("Content-Type", "application/json")];
     body := Some (JSON_stringify E body);
     disableAuthentication := false |}.

(** [executeUpdate] of SyncMyPacks. *)
Definition SyncMyPacks_executeUpdate (updates : list SyncUpdate)
    (context : Context) : M SyncResult :=
  match updates with
  | [] => throw (TypeError "Cannot read properties of undefined (reading 'newValue')")
  | update :: _ =>
      let pack := newValue update in
      (if includes_str "categories" (updatedFields update)
       then update_categories context update pack
       else ret tt) ;;;
      response <- fetcher_fetch (patch_request context update) ;;
      let final := in_place (formatItem E context) (Response.body response) in
      ret {| result := [final]; continuation := None |}
  end.

(** [if (!version) {
       let versions = await getVersions(context, packId);
       version = versions[0].packVersion; }] *)
Definition resolve_version (context : Context) (packId : json)
    (version : option json) : M (option json) :=
  if negb (truthy version) then
    versions <- await_helper (GetVersions packId) (getVersions E context packId) ;;
    match versions with
    | [] => throw (TypeError "Cannot read properties of undefined (reading 'packVersion')")
    | first :: _ => member "packVersion" first
    end
  else ret version.

(** From [if (!files?.length)] to the end of SourceCode. *)
Definition show_source (files : option (list json)) : M string :=
  match files with
  | None | Some [] => throw (Error "No source code found.")
  | Some (file :: _) =>
      url <- member "url" file ;;
      response <- fetcher_fetch {| method := "GET"; url := url;
                                   headers := []; body := None;
                                   disableAuthentication := true |} ;;
      let code := Response.body response in
      ret ("<pre>" ++ escape E code ++ "</pre>")%string
  end.

(** The SourceCode formula ([version] is optional). *)
Definition SourceCode_execute (packIdOrUrl : string) (version : option string)
    (context : Context) : M string :=
  packId <- lift (getPackId E context packIdOrUrl) ;;
  version <- resolve_version context packId (option_map JStr version) ;;
  files <- await_helper (GetFiles packId version)
             (getFiles E context packId version) ;;
  show_source files.

End Formulas.

(** The sync formulas the pack registers, and a run of either. *)
Inductive sync_formula : Type :=
| SyncPacks (args : SyncPacksArgs)
| SyncMyPacks.

Definition sync_request (E : Env) (f : sync_formula) (context : Context) : FetchRequest :=
  match f with
  | SyncPacks args => GET (SyncPacks_url E args context)
  | SyncMyPacks => GET (SyncMyPacks_url E context)
  end.

Definition sync_execute (E : Env) (f : sync_formula) (context : Context) : M SyncResult :=
  match f with
  | SyncPacks args => SyncPacks_execute E args context
  | SyncMyPacks => SyncMyPacks_execute E context
  end.

(* ------------------------------------------------------------------------- *)
(** ** Reading a run *)

(** The requests a run hands to the fetcher, in order. *)
Definition fetches (t : list event) : list FetchRequest :=
  flat_map (fun ev => match ev with EvFetch r => [r] | _ => [] end) t.

(** The jobs a run starts, in order. *)
Definition started (t : list event) : list job :=
  flat_map (fun ev => match ev with EvStart j => [j] | _ => [] end) t.

Definition is_removal (j : job) : bool :=
  match j with RemoveCategory _ _ => true | _ => false end.

Definition is_addition (j : job) : bool :=
  match j with AddCategory _ _ => true | _ => false end.

(** How many removal (addition) jobs a run starts for the category [c]. *)
Definition removals_for (c : string) (t : list event) : nat :=
  length (filter (fun j => match j with
                           | RemoveCategory _ (JStr c') => c =? c'
                           | _ => false
                           end) (started t)).

Definition additions_for (c : string) (t : list event) : nat :=
  length (filter (fun j => match j with
                           | AddCategory _ (JStr c') => c =? c'
                           | _ => false
                           end) (started t)).

(** Whether a settlement is a rejection. *)
Definition rejects (s : settlement) : bool :=
  match s with Rejected _ _ => true | Fulfilled _ => false end.

(** How the category job [j] ends in the world [E]. *)
Definition settles (E : Env) (context : Context) (j : job) : settlement :=
  match j with
  | RemoveCategory packId c => removeCategory E context packId c
  | AddCategory packId c => addCategory E context packId c
  | Enrich _ => Fulfilled 0
  end.

(** The promise the category job [j] leaves on the [jobs] array. *)
Definition promised (E : Env) (context : Context) (j : job) : promise :=
  {| pjob := j; state := settles E context j |}.

(** The set difference of the category memberships, as jobs: one removal
    per category of [prev] that [new] lacks, one addition per category of
    [new] that [prev] lacks, in the order of the arrays. *)
Definition removal_jobs (pack : json) (prev new : list json) : list job :=
  map (RemoveCategory (get "packId" pack))
      (filter (fun c => negb (includes c new)) prev).

Definition addition_jobs (pack : json) (prev new : list json) : list job :=
  map (AddCategory (get "packId" pack))
      (filter (fun c => negb (includes c prev)) new).

(** Reading of the ordering the specification asks of the category jobs:
    no addition job starts while a removal job that was started is still
    unjoined, and a removal that fails keeps every addition from starting. *)
Fixpoint additions_after_join (unjoined : bool) (t : list event) : bool :=
  match t with
  | [] => true
  | EvStart (RemoveCategory _ _) :: t' => additions_after_join true t'
  | EvStart (AddCategory _ _) :: t' => negb unjoined && additions_after_join unjoined t'
  | EvAwaitAll _ :: t' => additions_after_join false t'
  | _ :: t' => additions_after_join unjoined t'
  end.

Definition removal_fails (E : Env) (context : Context) (t : list event) : bool :=
  existsb (fun j => is_removal j && rejects (settles E context j)) (started t).

Definition removals_gate_additions (E : Env) (context : Context) (t : list event) : Prop :=
  additions_after_join false t = true /\
  (removal_fails E context t = true -> existsb is_addition (started t) = false).

(** Reading of "the error is raised before any network fetch is issued". *)
Definition raised_before_fetch {A : Type} (m : M A) : Prop :=
  (exists e, outcome m = Throws e) /\ fetches (trace m) = [].

(** [b] has every field of [a], with the same value. *)
Definition extends (a b : json) : Prop :=
  forall f v, get f a = Some v -> get f b = Some v.

(** A registry whose handlers only attach fields to the items of the page. *)
Definition attach_only (E : Env) : Prop :=
  forall key settings context page page',
    assoc key (MetadataTypes E) = Some settings ->
    callback settings context page = Attached page' ->
    Forall2 extends page page'.

(** The page after the handlers of [keys] ran on it, in call order. *)
Fixpoint enriched (E : Env) (context : Context) (keys : list string)
    (page : list json) : list json :=
  match keys with
  | [] => page
  | key :: rest =>
      match assoc key (MetadataTypes E) with
      | Some settings =>
          enriched E context rest
            (match callback settings context page with
             | Attached page' => page'
             | Failed _ => page
             end)
      | None => page
      end
  end.

(** The request SourceCode makes for a file of the listing. *)
Definition file_request (file : json) : FetchRequest :=
  {| method := "GET"; url := get "url" file; headers := []; body := None;
     disableAuthentication := true |}.

(** The version whose files SourceCode is to show: the [version] argument
    when it is given, the [packVersion] of the first entry of the version
    listing when it is absent (or empty). *)
Definition version_resolves (E : Env) (context : Context) (packId : json)
    (version : option string) (v : option json) : Prop :=
  let first_listed : Prop :=
    exists first others,
      getVersions E context packId = Returns (first :: others) /\
      first <> JNull /\ v = get "packVersion" first in
  match version with
  | Some s => if s =? "" then first_listed else v = Some (JStr s)
  | None => first_listed
  end.

(** A listing response without items: an object whose [items] is missing,
    null or the empty array. *)
Definition zero_items (b : json) : Prop :=
  exists ps, b = JObj ps /\
    (assoc "items" ps = None \/ assoc "items" ps = Some JNull \/
     assoc "items" ps = Some (JArr [])).

(* ------------------------------------------------------------------------- *)
(** ** A sample world

    A small instance of [Env] on which the formulas can be run: a server
    with two packs on the first page, a registry of two handlers of which
    one always fails, and category calls that succeed. *)

Module Demo.
Local Open Scope string_scope.

Definition quote : string := String (ascii_of_nat 34) "".

Definition numeral (n : Z) : string :=
  NilZero.string_of_int (Z.to_int n).

Fixpoint stringify (v : json) : string :=
  match v with
  | JNull => "null"
  | JBool true => "true"
  | JBool false => "false"
  | JNum n => numeral n
  | JStr s => quote ++ s ++ quote
  | JArr l => "[" ++ String.concat "," (map stringify l) ++ "]"
  | JObj ps =>
      "{" ++ String.concat ","
               (map (fun kv => match kv with
                               | (k, x) => quote ++ k ++ quote ++ ":" ++ stringify x
                               end) ps) ++ "}"
  end.

Definition to_String (v : option json) : string :=
  match v with
  | None => "undefined"
  | Some (JStr s) => s
  | Some x => stringify x
  end.

Definition show_param (kv : string * json) : string :=
  fst kv ++ "=" ++ to_String (Some (snd kv)).

Fixpoint escape_chars (s : string) : string :=
  match s with
  | EmptyString => ""
  | String c rest =>
      (if (c =? "<")%char then "&lt;"
       else if (c =? ">")%char then "&gt;"
       else if (c =? "&")%char then "&amp;"
       else if (c =? ascii_of_nat 34)%char then "&quot;"
       else if (c =? ascii_of_nat 39)%char then "&#39;"
       else String c "") ++ escape_chars rest
  end.

Definition pack1 : json :=
  JObj [("packId", JNum 7); ("name", JStr "Alpha");
        ("categories", JArr [JStr "A"; JStr "B"])].

Definition pack2 : json :=
  JObj [("packId", JNum 2); ("name", JStr "Beta"); ("categories", JArr [])].

Definition page2 : string := "https://coda.io/apis/v1/packs/listings?pageToken=p2".

Definition server (r : FetchRequest) : attempt Response.t :=
  if method r =? "PATCH" then
    Returns {| Response.status := 200;
               Response.body := JObj [("packId", JNum 7); ("name", JStr "Alpha2")] |}
  else if disableAuthentication r then
    Returns {| Response.status := 200; Response.body := JStr "if (a < b) { go(); }" |}
  else
    match url r with
    | Some (JStr u) =>
        if u =? page2 then
          Returns {| Response.status := 200;
                     Response.body := JObj [("items", JArr [])] |}
        else
          Returns {| Response.status := 200;
                     Response.body := JObj [("items", JArr [pack1; pack2]);
                                            ("nextPageLink", JStr page2)] |}
    | _ => Throws (TransportError "no url")
    end.

Definition attach (field : string) (x : json) (it : json) : json :=
  match it with
  | JObj ps => JObj (ps ++ [(field, x)])%list
  | _ => it
  end.

Definition registry : list (string * MetadataSettings) :=
  [("versions",
    {| name := "Versions";
       callback := fun _ page => Attached (map (attach "versions" (JArr [JStr "1.0"])) page) |});
   ("files",
    {| name := "Files";
       callback := fun _ _ => Failed (TransportError "403") |});
   ("stats",
    {| name := "Stats";
       callback := fun _ page => Attached (map (attach "stats" (JNum 1)) page) |})].

Definition world : Env :=
  {| joinUrl := String.concat "/";
     withQueryParams := fun base ps => base ++ "?" ++ String.concat "&" (map show_param ps);
     JSON_stringify := stringify;
     String_ := to_String;
     escape := fun code => escape_chars (to_String (Some code));
     fetch := server;
     getPackId := fun _ s => Returns (JStr s);
     formatItem := fun context it => attach "host" (JStr (protocolAndHost context)) it;
     unformatItem := fun it =>
       match it with
       | JObj ps => JObj (filter (fun kv => negb (fst kv =? "host")) ps)
       | _ => it
       end;
     getCategories := fun _ => Returns (JArr [JStr "A"; JStr "B"; JStr "C"]);
     getVersions := fun _ _ =>
       Returns [JObj [("packVersion", JStr "2.0")]; JObj [("packVersion", JStr "1.0")]];
     getFiles := fun _ _ _ => Returns (Some [JObj [("url", JStr "https://files/7/2.0")]]);
     removeCategory := fun _ _ _ => Fulfilled 1;
     addCategory := fun _ _ _ => Fulfilled 2;
     MetadataTypes := registry |}.

(** The same world, where removing a category is refused. *)
Definition world_refusing : Env :=
  {| joinUrl := joinUrl world;
     withQueryParams := withQueryParams world;
     JSON_stringify := JSON_stringify world;
     String_ := String_ world;
     escape := escape world;
     fetch := fetch world;
     getPackId := getPackId world;
     formatItem := formatItem world;
     unformatItem := unformatItem world;
     getCategories := getCategories world;
     getVersions := getVersions world;
     getFiles := getFiles world;
     removeCategory := fun _ _ _ => Rejected 1 (TransportError "403");
     addCategory := addCategory world;
     MetadataTypes := MetadataTypes world |}.

(** The same world, whose server knows no pack. *)
Definition world_empty : Env :=
  {| joinUrl := joinUrl world;
     withQueryParams := withQueryParams world;
     JSON_stringify := JSON_stringify world;
     String_ := String_ world;
     escape := escape world;
     fetch := fun _ => Returns {| Response.status := 200;
                                  Response.body := JObj [("items", JArr [])] |};
     getPackId := getPackId world;
     formatItem := formatItem world;
     unformatItem := unformatItem world;
     getCategories := getCategories world;
     getVersions := getVersions world;
     getFiles := fun _ _ _ => Returns (Some []);
     removeCategory := removeCategory world;
     addCategory := addCategory world;
     MetadataTypes := MetadataTypes world |}.

Definition fresh : Context :=
  {| protocolAndHost := "https://coda.io"; sync_continuation := None;
     propertyName := "categories" |}.

Definition resumed : Context :=
  {| protocolAndHost := "https://coda.io";
     sync_continuation := Some (JObj [("url", JStr page2)]);
     propertyName := "categories" |}.

Definition asking (property : string) : Context :=
  {| protocolAndHost := "https://coda.io"; sync_continuation := None;
     propertyName := property |}.

Definition args (keys : option (list string)) : SyncPacksArgs :=
  {| includePublished := true; includeWorkspace := false;
     includePrivate := false; metadata := keys |}.

(** An edit that moves a pack from categories A, B to B, C and renames it. *)
Definition edit : SyncUpdate :=
  {| previousValue :=
       JObj [("packId", JNum 7); ("name", JStr "Alpha");
             ("categories", JArr [JStr "A"; JStr "B"]); ("host", JStr "https://coda.io")];
     newValue :=
       JObj [("packId", JNum 7); ("name", JStr "Alpha2");
             ("categories", JArr [JStr "B"; JStr "C"]); ("host", JStr "https://coda.io")];
     updatedFields := ["name"; "categories"] |}.

Definition other_edit : SyncUpdate :=
  {| previousValue := JObj [("packId", JNum 2); ("name", JStr "Beta")];
     newValue := JObj [("packId", JNum 2); ("name", JStr "Gamma")];
     updatedFields := ["name"] |}.

End Demo.

(* ------------------------------------------------------------------------- *)
(** ** The PhoneNumber pack: [src/phone-number/pack.ts] *)

Module Phone.

(** [Formats] *)
Definition Formats : list string :=
  ["international"; "national"; "e164"; "rfc3966"; "significant"].

(** What [phones.parsePhoneNumber] returns, by the methods the pack calls
    on it; [toJSON] gives an object, held by its properties. *)
Record PhoneNumber : Type := {
  isValid : bool;
  getNumber : option string -> string;
  toJSON : list (string * json);
  getCountryCode : json
}.

(** The part of awesome-phonenumber the pack uses. *)
Record Lib : Type := {
  parsePhoneNumber : string -> option string -> PhoneNumber
}.

(** [o.k = v] on the properties of an object: an own property keeps its
    place, a new one goes last.  A property set to [undefined] is dropped:
    it reads as [undefined] either way. *)
Fixpoint assign (k : string) (v : json) (ps : list (string * json))
    : list (string * json) :=
  match ps with
  | [] => [(k, v)]
  | (k', x) :: rest =>
      if String.eqb k k' then (k, v) :: rest else (k', x) :: assign k v rest
  end.

Definition set_prop (k : string) (v : option json) (ps : list (string * json))
    : list (string * json) :=
  match v with
  | Some x => assign k x ps
  | None => filter (fun kv => negb (String.eqb k (fst kv))) ps
  end.

Section PhoneFormulas.

Variable L : Lib.

(** The IsPhoneNumber formula. *)
Definition IsPhoneNumber_execute (input : string) (region : option string)
    : M bool :=
  ret (isValid (parsePhoneNumber L input region)).

(** The autocomplete of the [format] parameter of FormatPhoneNumber. *)
Definition format_autocomplete : list json :=
  let parsed := parsePhoneNumber L "+19164451254" None in
  map (fun format =>
         let example := getNumber parsed (Some format) in
         JObj [("display", JStr (format ++ " - " ++ example)%string);
               ("value", JStr format)])
      Formats.

(** The FormatPhoneNumber formula. *)
Definition FormatPhoneNumber_execute (input : string) (region : option string)
    (format : option string) : M string :=
  let parsed := parsePhoneNumber L input region in
  if negb (isValid parsed) then
    throw (UserVisibleError "Invalid phone number")
  else if truthy (option_map JStr format)
          && negb (match format with
                   | Some f => includes_str f Formats
                   | None => false
                   end) then
    throw (UserVisibleError "Invalid format")
  else ret (getNumber parsed format).

(** The PhoneNumberInfo formula. *)
Definition PhoneNumberInfo_execute (input : string) (region : option string)
    : M json :=
  let parsed := parsePhoneNumber L input region in
  if negb (isValid parsed) then
    throw (UserVisibleError ("Invalid phone number: " ++ input))
  else
    let result := toJSON parsed in
    let result := set_prop "formats" (assoc "number" result) result in
    match assoc "number" result with
    | None =>
        throw (TypeError "Cannot read properties of undefined (reading 'input')")
    | Some number =>
        input' <- member "input" number ;;
        let result := set_prop "input" input' result in
        let result := set_prop "countryCode" (Some (getCountryCode parsed)) result in
        ret (JObj result)
    end.

End PhoneFormulas.

(** A stand-in for the library that knows one number. *)
Definition sample_number : PhoneNumber :=
  {| isValid := true;
     getNumber := fun format =>
       match format with
       | Some "international" => "+1 916-445-1254"
       | Some "national" => "(916) 445-1254"
       | Some "rfc3966" => "tel:+1-916-445-1254"
       | Some "significant" => "9164451254"
       | _ => "+19164451254"
       end;
     toJSON :=
       [("number", JObj [("input", JStr "+19164451254");
                         ("e164", JStr "+19164451254");
                         ("national", JStr "(916) 445-1254")]);
        ("regionCode", JStr "US");
        ("valid", JBool true);
        ("type", JStr "fixed-line-or-mobile")];
     getCountryCode := JNum 1 |}.

Definition no_number (input : string) : PhoneNumber :=
  {| isValid := false;
     getNumber := fun _ => "";
     toJSON := [("number", JObj [("input", JStr input)]); ("valid", JBool false)];
     getCountryCode := JNum 0 |}.

Definition sample_lib : Lib :=
  {| parsePhoneNumber := fun input _ =>
       if (input =? "+19164451254")%string then sample_number else no_number input |}.

End Phone.

(* ------------------------------------------------------------------------- *)
(** ** Further readings of a run, and further sample worlds *)

(** A value [for (... of v)] cannot iterate: anything but an array or a
    string. *)
Definition not_iterable (v : option json) : bool :=
  match v with
  | Some (JArr _) | Some (JStr _) => false
  | _ => true
  end.

(** The events of a run that ask for the version listing. *)
Definition asks_versions (t : list event) : bool :=
  existsb (fun ev => match ev with
                     | EvHelper (GetVersions _) => true
                     | _ => false
                     end) t.

Module Cases.

(** A world like [w] whose fetcher is [f]. *)
Definition with_fetch (f : FetchRequest -> attempt Response.t) (w : Env) : Env :=
  {| joinUrl := joinUrl w;
     withQueryParams := withQueryParams w;
     JSON_stringify := JSON_stringify w;
     String_ := String_ w;
     escape := escape w;
     fetch := f;
     getPackId := getPackId w;
     formatItem := formatItem w;
     unformatItem := unformatItem w;
     getCategories := getCategories w;
     getVersions := getVersions w;
     getFiles := getFiles w;
     removeCategory := removeCategory w;
     addCategory := addCategory w;
     MetadataTypes := MetadataTypes w |}.

(** A world like [w] whose version listing is [versions]. *)
Definition with_versions (versions : attempt (list json)) (w : Env) : Env :=
  {| joinUrl := joinUrl w;
     withQueryParams := withQueryParams w;
     JSON_stringify := JSON_stringify w;
     String_ := String_ w;
     escape := escape w;
     fetch := fetch w;
     getPackId := getPackId w;
     formatItem := formatItem w;
     unformatItem := unformatItem w;
     getCategories := getCategories w;
     getVersions := fun _ _ => versions;
     getFiles := getFiles w;
     removeCategory := removeCategory w;
     addCategory := addCategory w;
     MetadataTypes := MetadataTypes w |}.

Definition offline : Env :=
  with_fetch (fun _ => Throws (TransportError "offline")) Demo.world.

Definition answering (b : json) : Env :=
  with_fetch (fun _ => Returns {| Response.status := 200; Response.body := b |})
             Demo.world.

(** An edit of the name alone, reported as such, although the categories
    differ as well. *)
Definition unreported : SyncUpdate :=
  {| previousValue := JObj [("packId", JNum 7); ("name", JStr "Alpha");
                            ("categories", JArr [JStr "A"])];
     newValue := JObj [("packId", JNum 7); ("name", JStr "Alpha2");
                       ("categories", JArr [JStr "B"])];
     updatedFields := ["name"] |}.

(** An edit of the categories whose new value has lost them. *)
Definition truncated : SyncUpdate :=
  {| previousValue := JObj [("packId", JNum 7); ("categories", JArr [JStr "A"])];
     newValue := JObj [("packId", JNum 7)];
     updatedFields := ["categories"] |}.

(** An edit whose previous categories list A twice. *)
Definition doubled : SyncUpdate :=
  {| previousValue := JObj [("packId", JNum 7);
                            ("categories", JArr [JStr "A"; JStr "B"; JStr "A"])];
     newValue := JObj [("packId", JNum 7); ("categories", JArr [JStr "B"; JStr "C"])];
     updatedFields := ["categories"] |}.

End Cases.

(* ------------------------------------------------------------------------- *)
(** ** What a run needs to go through *)

(** The metadata keys a sync formula is asked for: those of its [metadata]
    argument for SyncPacks, none for SyncMyPacks. *)
Definition requested (f : sync_formula) : list string :=
  match f with
  | SyncPacks args => match metadata args with Some m => m | None => [] end
  | SyncMyPacks => []
  end.

(** The category block of [executeUpdate] lets the update go on: either the
    categories were not edited, so that the block is skipped, or both
    values have their array of categories and no category job is
    rejected. *)
Definition categories_pass (E : Env) (context : Context) (update : SyncUpdate)
    : Prop :=
  includes_str "categories" (updatedFields update) = false \/
  exists prev new,
    as_array (get "categories" (previousValue update)) = Some prev /\
    as_array (get "categories" (newValue update)) = Some new /\
    forall j, In j (removal_jobs (newValue update) prev new
                    ++ addition_jobs (newValue update) prev new) ->
              rejects (settles E context j) = false.

(* ------------------------------------------------------------------------- *)
(** ** Runs in the formula monad *)

Lemma trace_bind {A B : Type} (m : M A) (f : A -> M B) :
  trace (bind m f) =
  trace m ++ match outcome m with
             | Returns a => trace (f a)
             | Throws _ => []
             end.
Proof.
  destruct m as [t [a | e]]; simpl.
  - destruct (f a); reflexivity.
  - now rewrite app_nil_r.
Qed.

Lemma outcome_bind {A B : Type} (m : M A) (f : A -> M B) :
  outcome (bind m f) =
  match outcome m with
  | Returns a => outcome (f a)
  | Throws e => Throws e
  end.
Proof.
  destruct m as [t [a | e]]; simpl; [destruct (f a) |]; reflexivity.
Qed.

Lemma fetches_app (t u : list event) : fetches (t ++ u) = fetches t ++ fetches u.
Proof. unfold fetches. now rewrite !flat_map_concat_map, map_app, concat_app. Qed.

Lemma started_app (t u : list event) : started (t ++ u) = started t ++ started u.
Proof. unfold started. now rewrite !flat_map_concat_map, map_app, concat_app. Qed.


(** When every requested key is registered, the loop goes through: it starts
    one job per key, in order, and leaves the page as the handlers that
    succeeded made it. *)
Lemma start_enrichments_registered E context keys :
  forall items jobs,
    (forall k, In k keys -> assoc k (MetadataTypes E) <> None) ->
    start_enrichments E context keys items jobs =
    (map (fun k => EvStart (Enrich k)) keys,
     Returns (enriched E context keys items, jobs ++ map Enrich keys)).
Proof.
  induction keys as [| key rest IH]; intros items jobs Hreg; simpl.
  - now rewrite app_nil_r.
  - unfold getMetdataSettings.
    destruct (assoc key (MetadataTypes E)) as [settings |] eqn:Hkey.
    + simpl. rewrite IH by (intros k Hk; apply Hreg; now right).
      simpl. now rewrite <- app_assoc.
    + exfalso. apply (Hreg key); [now left | exact Hkey].
Qed.

(** The loop stops at the first key the registry does not know: the
    handlers of the keys before it have been started by then. *)
Lemma start_enrichments_unknown E context known bad rest :
  forall items jobs,
    (forall k, In k known -> assoc k (MetadataTypes E) <> None) ->
    assoc bad (MetadataTypes E) = None ->
    start_enrichments E context (known ++ bad :: rest) items jobs =
    (map (fun k => EvStart (Enrich k)) known, Throws (ConfigurationError bad)).
Proof.
  induction known as [| key known IH]; intros items jobs Hreg Hbad; simpl.
  - unfold getMetdataSettings. now rewrite Hbad.
  - unfold getMetdataSettings.
    destruct (assoc key (MetadataTypes E)) as [settings |] eqn:Hkey.
    + simpl. rewrite IH; [reflexivity | | exact Hbad].
      intros k Hk. apply Hreg. now right.
    + exfalso. apply (Hreg key); [now left | exact Hkey].
Qed.

(* ------------------------------------------------------------------------- *)
(** ** Pagination: the request of a sync and the continuation it returns *)

Arguments bind {A B} m f : simpl never.
Arguments member k o : simpl never.


Lemma member_run k o :
  member k o = ([], match o with
                    | JNull => Throws (TypeError ("Cannot read properties of null (reading '" ++ k ++ "')"))
                    | _ => Returns (get k o)
                    end).
Proof. now destruct o. Qed.

Lemma format_each_run E context items :
  format_each E context items =
  ([], match as_array items with
       | Some l => Returns (map (in_place (formatItem E context)) l)
       | None => Throws (TypeError "items is not iterable")
       end).
Proof. unfold format_each. now destruct (as_array items). Qed.




(** What [derive_continuation] gives, in the words of the specification. *)
Lemma derive_continuation_spec (link : option json) :
  (derive_continuation link <> None <-> truthy link = true) /\
  (forall k, derive_continuation link = Some k ->
     exists l, link = Some l /\ k = JObj [("url", l)]).
Proof.
  unfold derive_continuation.
  destruct link as [l |].
  - destruct (truthy (Some l)); split.
    + split; [reflexivity | discriminate].
    + intros k Hk. inversion Hk. now exists l.
    + split; [congruence | discriminate].
    + discriminate.
  - split; [split; [congruence | discriminate] | discriminate].
Qed.

(** A sync that returns has fetched its page, and its continuation is
    derived from the [nextPageLink] of that page. *)
Lemma sync_returns_inv E f context r :
  outcome (sync_execute E f context) = Returns r ->
  exists response,
    fetch E (sync_request E f context) = Returns response /\
    continuation r = derive_continuation (get "nextPageLink" (Response.body response)).
Proof.
  destruct f as [args |]; simpl.
  - unfold SyncPacks_execute. rewrite outcome_bind. unfold fetcher_fetch at 1. simpl.
    destruct (fetch E (GET (SyncPacks_url E args context))) as [response | e];
      [| discriminate].
    intros H. exists response. split; [reflexivity |].
    rewrite outcome_bind, member_run in H. simpl in H.
    destruct (Response.body response); simpl in H; try discriminate.
    all: rewrite outcome_bind, member_run in H; simpl in H.
    all: rewrite outcome_bind, format_each_run in H; simpl in H.
    all: try discriminate.
    destruct (as_array (assoc "items" props)); simpl in H; [| discriminate].
    rewrite outcome_bind in H.
    destruct (outcome (start_enrichments E context _ _ _)) as [[items jobs] | e];
      [| discriminate].
    rewrite outcome_bind in H. simpl in H. now inversion H.
  - unfold SyncMyPacks_execute. rewrite outcome_bind. unfold fetcher_fetch at 1. simpl.
    destruct (fetch E (GET (SyncMyPacks_url E context))) as [response | e];
      [| discriminate].
    intros H. exists response. split; [reflexivity |].
    rewrite outcome_bind, member_run in H. simpl in H.
    destruct (Response.body response); simpl in H; try discriminate.
    all: rewrite outcome_bind, member_run in H; simpl in H.
    all: rewrite outcome_bind, format_each_run in H; simpl in H.
    all: try discriminate.
    destruct (as_array (assoc "items" props)); simpl in H; [| discriminate].
    now inversion H.
Qed.

(* ------------------------------------------------------------------------- *)
(** ** Enrichment *)

Lemma bind_returns {A B : Type} (t : list event) (a : A) (f : A -> M B) :
  bind (t, Returns a) f = (t ++ trace (f a), outcome (f a)).
Proof. unfold bind, trace, outcome. now destruct (f a). Qed.

Lemma bind_throws {A B : Type} (t : list event) (e : error) (f : A -> M B) :
  bind (t, Throws e) f = (t, Throws e).
Proof. reflexivity. Qed.

Lemma extends_refl (a : json) : extends a a.
Proof. intros f v H. exact H. Qed.

Lemma extends_trans (a b c : json) : extends a b -> extends b c -> extends a c.
Proof. intros Hab Hbc f v H. apply Hbc, Hab, H. Qed.

Lemma Forall2_extends_refl (page : list json) : Forall2 extends page page.
Proof. induction page; constructor; [apply extends_refl | assumption]. Qed.

Lemma Forall2_extends_trans (p q r : list json) :
  Forall2 extends p q -> Forall2 extends q r -> Forall2 extends p r.
Proof.
  intros Hpq. revert r.
  induction Hpq as [| a b p q Hab Hpq IH]; intros r Hqr; inversion Hqr; subst.
  - constructor.
  - constructor; [eapply extends_trans; eassumption | now apply IH].
Qed.

(** Handlers that only attach fields keep every item, with its fields. *)
Lemma enriched_extends E context keys :
  attach_only E ->
  forall page, Forall2 extends page (enriched E context keys page).
Proof.
  intros Hattach.
  induction keys as [| key rest IH]; intros page; simpl.
  - apply Forall2_extends_refl.
  - destruct (assoc key (MetadataTypes E)) as [settings |] eqn:Hkey;
      [| apply Forall2_extends_refl].
    destruct (callback settings context page) as [page' | e] eqn:Hcb.
    + eapply Forall2_extends_trans; [| apply IH].
      eapply Hattach; eassumption.
    + apply IH.
Qed.

Lemma enriched_app E context done rest :
  (forall k, In k done -> assoc k (MetadataTypes E) <> None) ->
  forall page,
    enriched E context (done ++ rest) page =
    enriched E context rest (enriched E context done page).
Proof.
  induction done as [| key done IH]; intros Hreg page; simpl; [reflexivity |].
  destruct (assoc key (MetadataTypes E)) as [settings |] eqn:Hkey.
  - apply IH. intros k Hk. apply Hreg. now right.
  - exfalso. apply (Hreg key); [now left | exact Hkey].
Qed.

(** A handler that always fails leaves the page as if its key had not been
    requested. *)
Lemma enriched_without_failing E context bad keys :
  (forall k, In k keys -> assoc k (MetadataTypes E) <> None) ->
  (forall settings page, assoc bad (MetadataTypes E) = Some settings ->
     exists e, callback settings context page = Failed e) ->
  forall page,
    enriched E context keys page =
    enriched E context (filter (fun k => negb (k =? bad)) keys) page.
Proof.
  intros Hreg Hbad.
  induction keys as [| key rest IH]; intros page; simpl; [reflexivity |].
  assert (Hrest : forall k, In k rest -> assoc k (MetadataTypes E) <> None)
    by (intros k Hk; apply Hreg; now right).
  destruct (assoc key (MetadataTypes E)) as [settings |] eqn:Hkey.
  - destruct (String.eqb_spec key bad) as [-> | Hne]; simpl.
    + destruct (Hbad settings page Hkey) as [e ->]. now apply IH.
    + rewrite Hkey. now apply IH.
  - exfalso. apply (Hreg key); [now left | exact Hkey].
Qed.

(** The whole run of SyncPacks on a page whose requested keys are all
    registered. *)
Lemma SyncPacks_run E args context response page :
  let keys := match metadata args with Some m => m | None => [] end in
  (forall k, In k keys -> assoc k (MetadataTypes E) <> None) ->
  fetch E (GET (SyncPacks_url E args context)) = Returns response ->
  as_array (get "items" (Response.body response)) = Some page ->
  SyncPacks_execute E args context =
  (EvFetch (GET (SyncPacks_url E args context))
     :: map (fun k => EvStart (Enrich k)) keys
     ++ [EvAwaitAllSettled (map Enrich keys)],
   Returns {| result := enriched E context keys
                          (map (in_place (formatItem E context)) page);
              continuation :=
                derive_continuation (get "nextPageLink" (Response.body response)) |}).
Proof.
  intros keys Hreg Hfetch Hitems.
  unfold SyncPacks_execute, fetcher_fetch. rewrite Hfetch, bind_returns.
  assert (Hbody : Response.body response <> JNull)
    by (intros Hnull; rewrite Hnull in Hitems; discriminate).
  rewrite !member_run.
  destruct (Response.body response) eqn:Hb; try congruence; try discriminate.
  rewrite !bind_returns, format_each_run, Hitems, bind_returns.
  fold keys. rewrite (start_enrichments_registered E context keys _ _ Hreg).
  rewrite bind_returns. reflexivity.
Qed.

(** The whole run of SyncMyPacks on a page with an array of items. *)
Lemma SyncMyPacks_run E context response page :
  fetch E (GET (SyncMyPacks_url E context)) = Returns response ->
  as_array (get "items" (Response.body response)) = Some page ->
  SyncMyPacks_execute E context =
  ([EvFetch (GET (SyncMyPacks_url E context))],
   Returns {| result := map (in_place (formatItem E context)) page;
              continuation :=
                derive_continuation (get "nextPageLink" (Response.body response)) |}).
Proof.
  intros Hfetch Hitems.
  unfold SyncMyPacks_execute, fetcher_fetch. rewrite Hfetch, bind_returns.
  assert (Hbody : Response.body response <> JNull)
    by (intros Hnull; rewrite Hnull in Hitems; discriminate).
  rewrite !member_run.
  destruct (Response.body response) eqn:Hb; try congruence; try discriminate.
  rewrite !bind_returns, format_each_run, Hitems, bind_returns.
  reflexivity.
Qed.

(** A sync whose fetch brings a page with an array of items, and whose
    requested keys are registered, returns, with the continuation derived
    from the [nextPageLink] of that page. *)
Lemma sync_returns E f context response page :
  fetch E (sync_request E f context) = Returns response ->
  as_array (get "items" (Response.body response)) = Some page ->
  (forall k, In k (requested f) -> assoc k (MetadataTypes E) <> None) ->
  exists r,
    sync_execute E f context =
      (EvFetch (sync_request E f context)
         :: map (fun k => EvStart (Enrich k)) (requested f)
         ++ match f with
            | SyncPacks _ => [EvAwaitAllSettled (map Enrich (requested f))]
            | SyncMyPacks => []
            end,
       Returns r) /\
    continuation r = derive_continuation (get "nextPageLink" (Response.body response)).
Proof.
  intros Hfetch Hitems Hreg.
  destruct f as [args |]; simpl in *.
  - rewrite (SyncPacks_run E args context response page Hreg Hfetch Hitems).
    eexists. split; reflexivity.
  - rewrite (SyncMyPacks_run E context response page Hfetch Hitems).
    eexists. split; reflexivity.
Qed.

(** C4. For both sync formulas.  Once the fetch has brought a page with its
    array of items (and, for SyncPacks, the requested metadata keys are
    registered) the formula returns a result, and that result carries a
    continuation exactly when the body of the page has a next-page link (a
    [nextPageLink] that is present and not empty): the continuation is then
    the mapping whose single key [url] holds the link as the server sent
    it, and without a link no continuation is returned.  The same holds of
    every run that returns. *)
Theorem sync_continuation_iff_next_link E f context response :
  fetch E (sync_request E f context) = Returns response ->
  let link := get "nextPageLink" (Response.body response) in
  (forall page,
     as_array (get "items" (Response.body response)) = Some page ->
     (forall k, In k (requested f) -> assoc k (MetadataTypes E) <> None) ->
     exists r,
       outcome (sync_execute E f context) = Returns r /\
       (forall l, link = Some l -> truthy (Some l) = true ->
                  continuation r = Some (JObj [("url", l)])) /\
       (truthy link = false -> continuation r = None)) /\
  (forall r,
     outcome (sync_execute E f context) = Returns r ->
     (continuation r <> None <-> truthy link = true) /\
     (forall k, continuation r = Some k ->
        exists l, link = Some l /\ k = JObj [("url", l)])).
Proof.
  intros Hfetch link. split.
  - intros page Hitems Hreg.
    destruct (sync_returns E f context response page Hfetch Hitems Hreg)
      as [r [Hrun Hcont]].
    exists r. rewrite Hrun. split; [reflexivity |].
    rewrite Hcont. fold link. unfold derive_continuation.
    split.
    + intros l Hl Htruthy. rewrite Hl. now rewrite Htruthy.
    + intros Hfalsy. destruct link as [l |]; [now rewrite Hfalsy | reflexivity].
  - intros r Hret.
    destruct (sync_returns_inv E f context r Hret) as [response' [Hfetch' Hcont]].
    rewrite Hfetch in Hfetch'. inversion Hfetch'; subst response'.
    rewrite Hcont. apply derive_continuation_spec.
Qed.

Lemma sync_continuation_iff_next_link_witness :
  (exists r,
     outcome (sync_execute Demo.world SyncMyPacks Demo.fresh) = Returns r /\
     continuation r = Some (JObj [("url", JStr Demo.page2)])) /\
  (exists r,
     outcome (sync_execute Demo.world (SyncPacks (Demo.args (Some ["stats"])))
                Demo.fresh) = Returns r /\
     continuation r = Some (JObj [("url", JStr Demo.page2)])) /\
  (exists r,
     outcome (sync_execute Demo.world SyncMyPacks Demo.resumed) = Returns r /\
     continuation r = None).
Proof.
  assert (Hnone : forall k, In k (requested SyncMyPacks) ->
                            assoc k (MetadataTypes Demo.world) <> None)
    by (intros k []).
  assert (Hstats : forall k, In k (requested (SyncPacks (Demo.args (Some ["stats"])))) ->
                             assoc k (MetadataTypes Demo.world) <> None).
  { intros k [<- | []]. discriminate. }
  split; [| split].
  - destruct (proj1 (sync_continuation_iff_next_link Demo.world SyncMyPacks Demo.fresh
                       {| Response.status := 200;
                          Response.body := JObj [("items", JArr [Demo.pack1; Demo.pack2]);
                                                 ("nextPageLink", JStr Demo.page2)] |}
                       eq_refl)
                    [Demo.pack1; Demo.pack2] eq_refl Hnone) as [r [Hr [Hlink _]]].
    exists r. split; [exact Hr |]. apply Hlink; reflexivity.
  - destruct (proj1 (sync_continuation_iff_next_link Demo.world
                       (SyncPacks (Demo.args (Some ["stats"]))) Demo.fresh
                       {| Response.status := 200;
                          Response.body := JObj [("items", JArr [Demo.pack1; Demo.pack2]);
                                                 ("nextPageLink", JStr Demo.page2)] |}
                       eq_refl)
                    [Demo.pack1; Demo.pack2] eq_refl Hstats) as [r [Hr [Hlink _]]].
    exists r. split; [exact Hr |]. apply Hlink; reflexivity.
  - destruct (proj1 (sync_continuation_iff_next_link Demo.world SyncMyPacks Demo.resumed
                       {| Response.status := 200;
                          Response.body := JObj [("items", JArr [])] |}
                       eq_refl)
                    [] eq_refl Hnone) as [r [Hr [_ Hterminal]]].
    exists r. split; [exact Hr |]. apply Hterminal. reflexivity.
Defined.

(** C6. Best-effort enrichment.  Take a page of N items and requested
    handlers that are all registered and only attach fields.  After the
    fetch SyncPacks starts the handler of every requested key and then
    awaits, in one [Promise.allSettled] that is the last thing it does
    before returning, exactly the jobs it started.  Whatever handlers fail,
    it returns (the failure does not abort the page) and the result has the
    N items, each with the fields it had after normalisation; a handler
    that always fails leaves the result as if its key had not been
    requested, so only its fields are absent; the fields a succeeding
    handler attached are on the returned items; and with no metadata key no
    enrichment job starts and the items are returned as normalised. *)
Theorem best_effort_enrichment E args context response page :
  let keys := match metadata args with Some m => m | None => [] end in
  let formatted := map (in_place (formatItem E context)) page in
  (forall k, In k keys -> assoc k (MetadataTypes E) <> None) ->
  attach_only E ->
  fetch E (GET (SyncPacks_url E args context)) = Returns response ->
  as_array (get "items" (Response.body response)) = Some page ->
  exists r,
    outcome (SyncPacks_execute E args context) = Returns r /\
    trace (SyncPacks_execute E args context) =
      EvFetch (GET (SyncPacks_url E args context))
        :: map (fun k => EvStart (Enrich k)) keys
        ++ [EvAwaitAllSettled (map Enrich keys)] /\
    started (trace (SyncPacks_execute E args context)) = map Enrich keys /\
    length (result r) = length page /\
    Forall2 extends formatted (result r) /\
    (forall bad,
       (forall settings p, assoc bad (MetadataTypes E) = Some settings ->
          exists e, callback settings context p = Failed e) ->
       result r =
       enriched E context (filter (fun k => negb (k =? bad)) keys) formatted) /\
    (forall done key rest settings attached,
       keys = done ++ key :: rest ->
       assoc key (MetadataTypes E) = Some settings ->
       callback settings context (enriched E context done formatted) = Attached attached ->
       Forall2 extends attached (result r)) /\
    (keys = [] ->
       result r = formatted /\
       started (trace (SyncPacks_execute E args context)) = []).
Proof.
  intros keys formatted Hreg Hattach Hfetch Hitems.
  pose proof (SyncPacks_run E args context response page Hreg Hfetch Hitems) as Hrun.
  fold keys in Hrun. fold formatted in Hrun.
  eexists. rewrite Hrun. split; [reflexivity |].
  split; [reflexivity |].
  split.
  { cbn [trace fst].
    assert (Hstarts : forall ks,
              started (map (fun k => EvStart (Enrich k)) ks) = map Enrich ks)
      by (induction ks as [| k ks IH]; simpl; [reflexivity | now f_equal]).
    change (started (map (fun k => EvStart (Enrich k)) keys
                     ++ [EvAwaitAllSettled (map Enrich keys)]) = map Enrich keys).
    rewrite started_app, Hstarts. simpl. apply app_nil_r. }
  simpl.
  pose proof (enriched_extends E context keys Hattach formatted) as Hext.
  split; [| split; [exact Hext | split; [| split]]].
  - apply Forall2_length in Hext. rewrite <- Hext.
    unfold formatted. apply length_map.
  - intros bad Hbad. now apply enriched_without_failing.
  - intros done key rest settings attached Hkeys Hkey Hcb.
    rewrite Hkeys in *.
    rewrite enriched_app by (intros k Hk; apply Hreg, in_or_app; now left).
    simpl. rewrite Hkey, Hcb.
    now apply enriched_extends.
  - intros Hnone. rewrite Hnone. split; reflexivity.
Qed.

Lemma assoc_app_some {A : Type} (k : string) (ps qs : list (string * A)) (v : A) :
  assoc k ps = Some v -> assoc k (ps ++ qs) = Some v.
Proof.
  induction ps as [| [k' x] ps IH]; simpl; [discriminate |].
  destruct (k =? k'); [trivial | exact IH].
Qed.

Lemma attach_extends (field : string) (x : json) (page : list json) :
  Forall2 extends page (map (Demo.attach field x) page).
Proof.
  induction page as [| it page IH]; simpl; constructor; [| exact IH].
  intros f v H. destruct it; simpl in *; try discriminate.
  now apply assoc_app_some.
Qed.

Lemma Demo_attach_only : attach_only Demo.world.
Proof.
  intros key settings context page page' Hkey Hcb.
  simpl in Hkey.
  destruct (key =? "versions"); [inversion Hkey; subst; simpl in Hcb |].
  { inversion Hcb. apply attach_extends. }
  destruct (key =? "files"); [inversion Hkey; subst; simpl in Hcb |].
  { discriminate. }
  destruct (key =? "stats"); [inversion Hkey; subst; simpl in Hcb |].
  { inversion Hcb. apply attach_extends. }
  discriminate.
Qed.

Lemma best_effort_enrichment_witness :
  exists r,
    outcome (SyncPacks_execute Demo.world
               (Demo.args (Some ["versions"; "files"; "stats"])) Demo.fresh) = Returns r /\
    trace (SyncPacks_execute Demo.world
             (Demo.args (Some ["versions"; "files"; "stats"])) Demo.fresh) =
      [EvFetch (GET (SyncPacks_url Demo.world
                       (Demo.args (Some ["versions"; "files"; "stats"])) Demo.fresh));
       EvStart (Enrich "versions"); EvStart (Enrich "files"); EvStart (Enrich "stats");
       EvAwaitAllSettled [Enrich "versions"; Enrich "files"; Enrich "stats"]] /\
    length (result r) = 2 /\
    result r =
    enriched Demo.world Demo.fresh ["versions"; "stats"]
      (map (in_place (formatItem Demo.world Demo.fresh)) [Demo.pack1; Demo.pack2]).
Proof.
  assert (Hreg : forall k, In k ["versions"; "files"; "stats"] ->
                           assoc k (MetadataTypes Demo.world) <> None).
  { intros k [<- | [<- | [<- | []]]]; discriminate. }
  destruct (best_effort_enrichment Demo.world
              (Demo.args (Some ["versions"; "files"; "stats"])) Demo.fresh
              {| Response.status := 200;
                 Response.body := JObj [("items", JArr [Demo.pack1; Demo.pack2]);
                                        ("nextPageLink", JStr Demo.page2)] |}
              [Demo.pack1; Demo.pack2] Hreg Demo_attach_only eq_refl eq_refl)
    as [r [Hr [Htrace [_ [Hlen [_ [Hbad _]]]]]]].
  exists r. split; [exact Hr |]. split; [exact Htrace |]. split; [exact Hlen |].
  apply (Hbad "files").
  intros settings p Hs. inversion Hs; subst. simpl. now eexists.
Defined.

(* ------------------------------------------------------------------------- *)
(** ** The Pack formula *)

(** C7. A Pack lookup, by ID or URL, whose listing response has no item
    ends in the user-visible error "Pack not found: " followed by the ID or
    URL that was asked for; nothing is returned and nothing else is thrown. *)
Theorem Pack_not_found E packIdOrUrl context packId response :
  getPackId E context packIdOrUrl = Returns packId ->
  fetch E (GET (Pack_url E context packId)) = Returns response ->
  zero_items (Response.body response) ->
  outcome (Pack_execute E packIdOrUrl context) =
  Throws (UserVisibleError ("Pack not found: " ++ packIdOrUrl)).
Proof.
  intros Hid Hfetch [ps [Hbody Hzero]].
  unfold Pack_execute, lift, fetcher_fetch.
  rewrite Hid, bind_returns, Hfetch, bind_returns, member_run, Hbody, bind_returns.
  simpl.
  destruct Hzero as [-> | [-> | ->]]; reflexivity.
Qed.

Lemma Pack_not_found_witness :
  outcome (Pack_execute Demo.world_empty "https://coda.io/packs/nothing-7" Demo.fresh) =
  Throws (UserVisibleError "Pack not found: https://coda.io/packs/nothing-7").
Proof.
  apply (Pack_not_found Demo.world_empty "https://coda.io/packs/nothing-7" Demo.fresh
           (JStr "https://coda.io/packs/nothing-7")
           {| Response.status := 200; Response.body := JObj [("items", JArr [])] |}).
  - reflexivity.
  - reflexivity.
  - exists [("items", JArr [])]. split; [reflexivity |]. right. right. reflexivity.
Defined.

(* ------------------------------------------------------------------------- *)
(** ** The update path of SyncMyPacks *)

Lemma for_of_run what v :
  for_of what v =
  ([], match as_array v with
       | Some l => Returns l
       | None => Throws (TypeError (what ++ " is not iterable"))
       end).
Proof. unfold for_of. now destruct (as_array v). Qed.

Lemma includes_in_run x v :
  includes_in x v =
  ([], match as_array v with
       | Some l => Returns (includes x l)
       | None => Throws (TypeError "Cannot read properties of undefined (reading 'includes')")
       end).
Proof. unfold includes_in. now destruct (as_array v). Qed.

(** The first loop starts the removal jobs, one after the other, and awaits
    nothing. *)
Lemma push_removals_run E context update pack new :
  as_array (get "categories" (newValue update)) = Some new ->
  forall prev jobs,
    push_removals E context update pack prev jobs =
    (map EvStart (removal_jobs pack prev new),
     Returns (jobs ++ map (promised E context) (removal_jobs pack prev new))).
Proof.
  intros Hnew.
  induction prev as [| category prev IH]; intros jobs; simpl.
  - now rewrite app_nil_r.
  - rewrite includes_in_run, Hnew, bind_returns. simpl.
    unfold removal_jobs. simpl.
    destruct (includes category new); simpl.
    + now rewrite IH.
    + unfold start. rewrite bind_returns, IH. simpl.
      now rewrite <- app_assoc.
Qed.

(** So does the second loop with the addition jobs. *)
Lemma push_additions_run E context update pack prev :
  as_array (get "categories" (previousValue update)) = Some prev ->
  forall new jobs,
    push_additions E context update pack new jobs =
    (map EvStart (addition_jobs pack prev new),
     Returns (jobs ++ map (promised E context) (addition_jobs pack prev new))).
Proof.
  intros Hprev.
  induction new as [| category new IH]; intros jobs; simpl.
  - now rewrite app_nil_r.
  - rewrite includes_in_run, Hprev, bind_returns. simpl.
    unfold addition_jobs. simpl.
    destruct (includes category prev); simpl.
    + now rewrite IH.
    + unfold start. rewrite bind_returns, IH. simpl.
      now rewrite <- app_assoc.
Qed.

(** The category block: every removal is started, then every addition, and
    only then one [Promise.all] joins them all. *)
Lemma update_categories_run E context update pack prev new :
  as_array (get "categories" (previousValue update)) = Some prev ->
  as_array (get "categories" (newValue update)) = Some new ->
  let jobs := removal_jobs pack prev new ++ addition_jobs pack prev new in
  update_categories E context update pack =
  (map EvStart jobs ++ [EvAwaitAll jobs],
   Promise_all (map (promised E context) jobs)).
Proof.
  intros Hprev Hnew jobs.
  unfold update_categories.
  rewrite for_of_run, Hprev, bind_returns.
  rewrite (push_removals_run E context update pack new Hnew), bind_returns.
  rewrite for_of_run, Hnew, bind_returns.
  rewrite (push_additions_run E context update pack prev Hprev), bind_returns.
  unfold await_all. simpl. unfold jobs.
  rewrite !map_app, !map_map. simpl.
  rewrite !map_id. rewrite <- !app_assoc. reflexivity.
Qed.

Lemma first_rejection_none ps :
  first_rejection ps = None <-> forall p, In p ps -> rejects (state p) = false.
Proof.
  induction ps as [| p ps IH]; simpl.
  - split; [intros _ q [] | reflexivity].
  - destruct (state p) as [t | t e] eqn:Hp.
    + rewrite IH. split.
      * intros H q [<- | Hq]; [now rewrite Hp | now apply H].
      * intros H q Hq. apply H. now right.
    + split.
      * destruct (first_rejection ps) as [[t' e'] |]; [| discriminate].
        destruct (t <=? t')%nat; discriminate.
      * intros H. specialize (H p (or_introl eq_refl)).
        rewrite Hp in H. discriminate.
Qed.

(** [Promise.all] rejects with the reason of an earliest rejection. *)
Lemma first_rejection_earliest ps t e :
  first_rejection ps = Some (t, e) ->
  (exists p, In p ps /\ state p = Rejected t e) /\
  (forall q t' e', In q ps -> state q = Rejected t' e' -> t <= t').
Proof.
  revert t e.
  induction ps as [| p ps IH]; simpl; intros t e H; [discriminate |].
  destruct (state p) as [tp | tp ep] eqn:Hp.
  - destruct (IH t e H) as [[q [Hq Hs]] Hmin]. split.
    + exists q. split; [now right | exact Hs].
    + intros q' t' e' [<- | Hq'] Hs'; [congruence | eapply Hmin; eassumption].
  - destruct (first_rejection ps) as [[t0 e0] |] eqn:Hrest.
    + destruct (IH t0 e0 eq_refl) as [[q [Hq Hs]] Hmin].
      destruct (Nat.leb_spec tp t0) as [Hle | Hlt]; inversion H; subst.
      * split; [exists p; split; [now left | exact Hp] |].
        intros q' t' e' [<- | Hq'] Hs'.
        -- rewrite Hp in Hs'. inversion Hs'. lia.
        -- specialize (Hmin q' t' e' Hq' Hs'). lia.
      * split; [exists q; split; [now right | exact Hs] |].
        intros q' t' e' [<- | Hq'] Hs'.
        -- rewrite Hp in Hs'. inversion Hs'. lia.
        -- eapply Hmin; eassumption.
    + inversion H; subst.
      split; [exists p; split; [now left | exact Hp] |].
      intros q' t' e' [<- | Hq'] Hs'.
      * rewrite Hp in Hs'. inversion Hs'. lia.
      * apply first_rejection_none with (p := q') in Hrest; [| exact Hq'].
        rewrite Hs' in Hrest. discriminate.
Qed.

Lemma Promise_all_fulfils ps :
  (forall p, In p ps -> rejects (state p) = false) -> Promise_all ps = Returns tt.
Proof.
  intros H. unfold Promise_all.
  now rewrite (proj2 (first_rejection_none ps) H).
Qed.

Lemma Promise_all_rejects ps p :
  In p ps -> rejects (state p) = true -> exists e, Promise_all ps = Throws e.
Proof.
  intros Hin Hrej. unfold Promise_all.
  destruct (first_rejection ps) as [[t e] |] eqn:Hfirst; [now exists e |].
  rewrite (proj1 (first_rejection_none ps) Hfirst p Hin) in Hrej. discriminate.
Qed.

(** The run of [executeUpdate] when the categories were edited. *)
Lemma executeUpdate_run_edited E update rest context prev new :
  includes_str "categories" (updatedFields update) = true ->
  as_array (get "categories" (previousValue update)) = Some prev ->
  as_array (get "categories" (newValue update)) = Some new ->
  let jobs := removal_jobs (newValue update) prev new
              ++ addition_jobs (newValue update) prev new in
  SyncMyPacks_executeUpdate E (update :: rest) context =
  match Promise_all (map (promised E context) jobs) with
  | Returns _ =>
      (map EvStart jobs ++ [EvAwaitAll jobs; EvFetch (patch_request E context update)],
       match fetch E (patch_request E context update) with
       | Returns response =>
           Returns {| result := [in_place (formatItem E context) (Response.body response)];
                      continuation := None |}
       | Throws e => Throws e
       end)
  | Throws e => (map EvStart jobs ++ [EvAwaitAll jobs], Throws e)
  end.
Proof.
  intros Hedited Hprev Hnew jobs.
  unfold SyncMyPacks_executeUpdate. rewrite Hedited.
  rewrite (update_categories_run E context update (newValue update) prev new Hprev Hnew).
  fold jobs.
  destruct (Promise_all (map (promised E context) jobs)) as [[] | e].
  - rewrite bind_returns. unfold fetcher_fetch.
    destruct (fetch E (patch_request E context update)) as [response | e].
    + rewrite bind_returns. simpl. now rewrite <- app_assoc.
    + rewrite bind_throws. simpl. now rewrite <- app_assoc.
  - now rewrite bind_throws.
Qed.

(** The run of [executeUpdate] when they were not. *)
Lemma executeUpdate_run_unedited E update rest context :
  includes_str "categories" (updatedFields update) = false ->
  SyncMyPacks_executeUpdate E (update :: rest) context =
  ([EvFetch (patch_request E context update)],
   match fetch E (patch_request E context update) with
   | Returns response =>
       Returns {| result := [in_place (formatItem E context) (Response.body response)];
                  continuation := None |}
   | Throws e => Throws e
   end).
Proof.
  intros Hunedited.
  unfold SyncMyPacks_executeUpdate. rewrite Hunedited.
  unfold ret. rewrite bind_returns. unfold fetcher_fetch.
  destruct (fetch E (patch_request E context update)) as [response | e].
  - now rewrite bind_returns.
  - now rewrite bind_throws.
Qed.

Lemma fetches_starts (js : list job) : fetches (map EvStart js) = [].
Proof. induction js; simpl; [reflexivity | assumption]. Qed.

Lemma started_starts (js : list job) : started (map EvStart js) = js.
Proof. induction js; simpl; [reflexivity | now f_equal]. Qed.

(** C1, as the code has it.  When the categories were edited, every removal
    job and then every addition job is started before anything is awaited,
    and one [Promise.all] joins the two groups together: no job starts
    after the join.  A job of either group that fails aborts the update
    before the PATCH request is issued, the additions having been started
    all the same; when no job fails the PATCH request follows the join. *)
Theorem category_jobs_share_one_join E update rest context prev new :
  includes_str "categories" (updatedFields update) = true ->
  as_array (get "categories" (previousValue update)) = Some prev ->
  as_array (get "categories" (newValue update)) = Some new ->
  let removals := removal_jobs (newValue update) prev new in
  let additions := addition_jobs (newValue update) prev new in
  let run := SyncMyPacks_executeUpdate E (update :: rest) context in
  (exists tail,
     trace run = map EvStart removals ++ map EvStart additions
                 ++ EvAwaitAll (removals ++ additions) :: tail /\
     started tail = []) /\
  (forall j, In j (removals ++ additions) ->
     rejects (settles E context j) = true ->
     (exists e, outcome run = Throws e) /\ fetches (trace run) = []) /\
  ((forall j, In j (removals ++ additions) -> rejects (settles E context j) = false) ->
   fetches (trace run) = [patch_request E context update]).
Proof.
  intros Hedited Hprev Hnew removals additions run.
  unfold run.
  rewrite (executeUpdate_run_edited E update rest context prev new Hedited Hprev Hnew).
  fold removals. fold additions.
  split; [| split].
  - destruct (Promise_all _) as [[] | e]; simpl.
    + exists [EvFetch (patch_request E context update)].
      split; [| reflexivity].
      now rewrite map_app, <- app_assoc.
    + exists []. split; [| reflexivity].
      now rewrite map_app, <- app_assoc.
  - intros j Hj Hrej.
    destruct (Promise_all_rejects (map (promised E context) (removals ++ additions))
                (promised E context j)) as [e He].
    + now apply in_map.
    + exact Hrej.
    + rewrite He. simpl. split; [now exists e |].
      now rewrite fetches_app, fetches_starts.
  - intros Hfine.
    rewrite Promise_all_fulfils.
    + simpl. now rewrite fetches_app, fetches_starts.
    + intros p Hp. apply in_map_iff in Hp. destruct Hp as [j [<- Hj]].
      now apply Hfine.
Qed.

Lemma category_jobs_share_one_join_witness :
  fetches (trace (SyncMyPacks_executeUpdate Demo.world [Demo.edit; Demo.other_edit] Demo.fresh)) =
  [patch_request Demo.world Demo.fresh Demo.edit].
Proof.
  apply (category_jobs_share_one_join Demo.world Demo.edit [Demo.other_edit] Demo.fresh
           [JStr "A"; JStr "B"] [JStr "B"; JStr "C"] eq_refl eq_refl eq_refl).
  intros j [<- | [<- | []]]; reflexivity.
Defined.

(** C1, as the specification words it, fails: where removing a category is
    refused, the addition of category C has been started all the same. *)
Lemma category_additions_start_unjoined :
  ~ removals_gate_additions Demo.world_refusing Demo.fresh
      (trace (SyncMyPacks_executeUpdate Demo.world_refusing [Demo.edit] Demo.fresh)).
Proof.
  intros [_ Hgate].
  specialize (Hgate eq_refl).
  discriminate Hgate.
Qed.

(** Even where every call succeeds, the addition starts while the removal
    is unjoined. *)
Example additions_overlap_removals :
  additions_after_join false
    (trace (SyncMyPacks_executeUpdate Demo.world [Demo.edit] Demo.fresh)) = false.
Proof. reflexivity. Qed.

(* ------------------------------------------------------------------------- *)
(** ** The category diff *)

Lemma includes_str_In (k : string) (l : list string) :
  includes_str k l = true <-> In k l.
Proof.
  unfold includes_str. rewrite existsb_exists. split.
  - intros [x [Hx Heq]]. apply String.eqb_eq in Heq. now subst.
  - intros H. exists k. split; [exact H | apply String.eqb_refl].
Qed.

Lemma includes_JStr (c : string) (l : list string) :
  includes (JStr c) (map JStr l) = includes_str c l.
Proof.
  unfold includes, includes_str.
  induction l as [| x l IH]; simpl; [reflexivity | now rewrite IH].
Qed.

Lemma filter_JStr (p : string -> bool) (q : json -> bool) (l : list string) :
  (forall c, q (JStr c) = p c) ->
  filter q (map JStr l) = map JStr (filter p l).
Proof.
  intros Hpq.
  induction l as [| x l IH]; simpl; [reflexivity |].
  rewrite Hpq. destruct (p x); simpl; now rewrite IH.
Qed.

(** In a list without duplicates a string occurs once or not at all. *)
Lemma occurrences_NoDup (c : string) (l : list string) :
  NoDup l ->
  length (filter (String.eqb c) l) = if includes_str c l then 1 else 0.
Proof.
  induction 1 as [| x l Hx Hnd IH]; simpl; [reflexivity |].
  destruct (String.eqb_spec c x) as [-> | Hne]; simpl; [| exact IH].
  rewrite IH.
  destruct (includes_str x l) eqn:Hin; [| reflexivity].
  apply includes_str_In in Hin. contradiction.
Qed.

Lemma occurrences_filter (c : string) (p : string -> bool) (l : list string) :
  length (filter (String.eqb c) (filter p l)) =
  if p c then length (filter (String.eqb c) l) else 0.
Proof.
  induction l as [| x l IH]; simpl; [now destruct (p c) |].
  destruct (p x) eqn:Hpx; simpl.
  - destruct (String.eqb_spec c x) as [-> | Hne]; simpl.
    + rewrite IH, Hpx. reflexivity.
    + exact IH.
  - destruct (String.eqb_spec c x) as [-> | Hne]; simpl.
    + rewrite IH, Hpx. reflexivity.
    + exact IH.
Qed.

Lemma removals_for_app c t u :
  removals_for c (t ++ u) = removals_for c t + removals_for c u.
Proof. unfold removals_for. now rewrite started_app, filter_app, length_app. Qed.

Lemma additions_for_app c t u :
  additions_for c (t ++ u) = additions_for c t + additions_for c u.
Proof. unfold additions_for. now rewrite started_app, filter_app, length_app. Qed.

Lemma removals_for_removal_jobs c pack (prev new : list string) :
  removals_for c (map EvStart (removal_jobs pack (map JStr prev) (map JStr new))) =
  length (filter (String.eqb c) (filter (fun x => negb (includes_str x new)) prev)).
Proof.
  unfold removals_for, removal_jobs.
  rewrite started_starts.
  rewrite (filter_JStr (fun x => negb (includes_str x new)))
    by (intros x; now rewrite includes_JStr).
  induction (filter (fun x => negb (includes_str x new)) prev) as [| x l IH];
    simpl; [reflexivity |].
  destruct (c =? x); simpl; now rewrite IH.
Qed.

Lemma additions_for_addition_jobs c pack (prev new : list string) :
  additions_for c (map EvStart (addition_jobs pack (map JStr prev) (map JStr new))) =
  length (filter (String.eqb c) (filter (fun x => negb (includes_str x prev)) new)).
Proof.
  unfold additions_for, addition_jobs.
  rewrite started_starts.
  rewrite (filter_JStr (fun x => negb (includes_str x prev)))
    by (intros x; now rewrite includes_JStr).
  induction (filter (fun x => negb (includes_str x prev)) new) as [| x l IH];
    simpl; [reflexivity |].
  destruct (c =? x); simpl; now rewrite IH.
Qed.

Lemma removals_for_addition_jobs c pack prev new :
  removals_for c (map EvStart (addition_jobs pack prev new)) = 0.
Proof.
  unfold removals_for, addition_jobs. rewrite started_starts.
  induction (filter (fun x => negb (includes x prev)) new) as [| x l IH];
    simpl; [reflexivity | exact IH].
Qed.

Lemma additions_for_removal_jobs c pack prev new :
  additions_for c (map EvStart (removal_jobs pack prev new)) = 0.
Proof.
  unfold additions_for, removal_jobs. rewrite started_starts.
  induction (filter (fun x => negb (includes x new)) prev) as [| x l IH];
    simpl; [reflexivity | exact IH].
Qed.

(** The jobs [executeUpdate] starts, counted per category. *)
Lemma executeUpdate_counts E update rest context (prev new : list string) c :
  get "categories" (previousValue update) = Some (JArr (map JStr prev)) ->
  get "categories" (newValue update) = Some (JArr (map JStr new)) ->
  NoDup prev -> NoDup new ->
  let t := trace (SyncMyPacks_executeUpdate E (update :: rest) context) in
  let edited := includes_str "categories" (updatedFields update) in
  removals_for c t =
    (if edited && (includes_str c prev && negb (includes_str c new)) then 1 else 0) /\
  additions_for c t =
    (if edited && (includes_str c new && negb (includes_str c prev)) then 1 else 0).
Proof.
  intros Hprev Hnew Hndp Hndn t edited. unfold t, edited.
  destruct (includes_str "categories" (updatedFields update)) eqn:Hedited.
  - rewrite (executeUpdate_run_edited E update rest context
               (map JStr prev) (map JStr new) Hedited)
      by (rewrite ?Hprev, ?Hnew; reflexivity).
    assert (Hshape : forall tail,
      started tail = [] ->
      removals_for c
        (map EvStart (removal_jobs (newValue update) (map JStr prev) (map JStr new)
                      ++ addition_jobs (newValue update) (map JStr prev) (map JStr new))
         ++ tail) =
        (if true && (includes_str c prev && negb (includes_str c new)) then 1 else 0) /\
      additions_for c
        (map EvStart (removal_jobs (newValue update) (map JStr prev) (map JStr new)
                      ++ addition_jobs (newValue update) (map JStr prev) (map JStr new))
         ++ tail) =
        (if true && (includes_str c new && negb (includes_str c prev)) then 1 else 0)).
    { intros tail Htail.
      rewrite removals_for_app, additions_for_app, map_app.
      rewrite removals_for_app, additions_for_app.
      rewrite removals_for_removal_jobs, removals_for_addition_jobs.
      rewrite additions_for_removal_jobs, additions_for_addition_jobs.
      unfold removals_for at 1. unfold additions_for at 1. rewrite Htail. simpl.
      rewrite !occurrences_filter, !Nat.add_0_r.
      rewrite (occurrences_NoDup c prev Hndp), (occurrences_NoDup c new Hndn).
      destruct (includes_str c prev), (includes_str c new); split; reflexivity. }
    destruct (Promise_all _) as [[] | e]; simpl trace; apply Hshape; reflexivity.
  - rewrite (executeUpdate_run_unedited E update rest context Hedited).
    split; reflexivity.
Qed.

(** C2. For every previous and new set of categories (the edit being
    reported by the host: [updatedFields] names the categories whenever the
    two sets differ), the update starts exactly one removal job for each
    category of the previous set that the new set lacks, exactly one
    addition job for each category of the new set that the previous set
    lacks, and for any other category, one present in both among them,
    neither. *)
Theorem category_diff_jobs E update rest context (prev new : list string) :
  get "categories" (previousValue update) = Some (JArr (map JStr prev)) ->
  get "categories" (newValue update) = Some (JArr (map JStr new)) ->
  NoDup prev -> NoDup new ->
  ((exists c, In c prev /\ ~ In c new \/ In c new /\ ~ In c prev) ->
   In "categories" (updatedFields update)) ->
  let t := trace (SyncMyPacks_executeUpdate E (update :: rest) context) in
  forall c,
    (In c prev -> ~ In c new -> removals_for c t = 1) /\
    (In c new -> ~ In c prev -> additions_for c t = 1) /\
    (~ (In c prev /\ ~ In c new) -> removals_for c t = 0) /\
    (~ (In c new /\ ~ In c prev) -> additions_for c t = 0) /\
    (In c prev -> In c new -> removals_for c t = 0 /\ additions_for c t = 0).
Proof.
  intros Hprev Hnew Hndp Hndn Hhost t c.
  destruct (executeUpdate_counts E update rest context prev new c
              Hprev Hnew Hndp Hndn) as [Hrem Hadd].
  fold t in Hrem, Hadd.
  assert (Hp : includes_str c prev = true <-> In c prev) by apply includes_str_In.
  assert (Hn : includes_str c new = true <-> In c new) by apply includes_str_In.
  assert (Hed : (In c prev /\ ~ In c new \/ In c new /\ ~ In c prev) ->
                includes_str "categories" (updatedFields update) = true).
  { intros Hdiff. apply includes_str_In, Hhost. now exists c. }
  rewrite Hrem, Hadd.
  destruct (includes_str c prev) eqn:Ep, (includes_str c new) eqn:En; simpl;
    rewrite ?andb_false_r; simpl.
  - repeat split; intros; try reflexivity; exfalso; intuition congruence.
  - rewrite Hed by (left; split; [now apply Hp | intros Hc; apply Hn in Hc; discriminate]).
    repeat split; intros; try reflexivity; exfalso; intuition congruence.
  - rewrite Hed by (right; split; [now apply Hn | intros Hc; apply Hp in Hc; discriminate]).
    repeat split; intros; try reflexivity; exfalso; intuition congruence.
  - repeat split; intros; try reflexivity; exfalso; intuition congruence.
Qed.

Lemma category_diff_jobs_witness :
  let t := trace (SyncMyPacks_executeUpdate Demo.world
                    [Demo.edit; Demo.other_edit] Demo.fresh) in
  removals_for "A" t = 1 /\ additions_for "C" t = 1 /\
  removals_for "B" t = 0 /\ additions_for "B" t = 0.
Proof.
  assert (Hprev : NoDup ["A"; "B"]).
  { repeat constructor; simpl; intuition discriminate. }
  assert (Hnew : NoDup ["B"; "C"]).
  { repeat constructor; simpl; intuition discriminate. }
  assert (Hhost : (exists c, In c ["A"; "B"] /\ ~ In c ["B"; "C"] \/
                             In c ["B"; "C"] /\ ~ In c ["A"; "B"]) ->
                  In "categories" (updatedFields Demo.edit)).
  { intros _. simpl. right. left. reflexivity. }
  pose proof (category_diff_jobs Demo.world Demo.edit [Demo.other_edit] Demo.fresh
                ["A"; "B"] ["B"; "C"] eq_refl eq_refl Hprev Hnew Hhost) as H.
  simpl in H. intros t.
  split; [| split].
  - apply (H "A"); simpl; [now left | intuition discriminate].
  - apply (H "C"); simpl; [now right; left | intuition discriminate].
  - apply (H "B"); simpl; [now right; left | now left].
Defined.

(* ------------------------------------------------------------------------- *)
(** ** One update per call *)

Lemma push_removals_stuck E context update pack prev jobs :
  as_array (get "categories" (newValue update)) = None ->
  exists r, push_removals E context update pack prev jobs = ([], r).
Proof.
  intros Hnew. destruct prev as [| category prev]; simpl.
  - now eexists.
  - rewrite includes_in_run, Hnew, bind_throws. now eexists.
Qed.

(** Whatever the edit is, the category block hands nothing to the fetcher
    itself. *)
Lemma update_categories_fetches E context update pack :
  fetches (trace (update_categories E context update pack)) = [].
Proof.
  destruct (as_array (get "categories" (previousValue update))) as [prev |] eqn:Hprev.
  - destruct (as_array (get "categories" (newValue update))) as [new |] eqn:Hnew.
    + rewrite (update_categories_run E context update pack prev new Hprev Hnew).
      simpl. now rewrite fetches_app, fetches_starts.
    + unfold update_categories.
      rewrite for_of_run, Hprev, bind_returns.
      destruct (push_removals_stuck E context update pack prev [] Hnew) as [r ->].
      destruct r as [jobs | e].
      * rewrite bind_returns, for_of_run, Hnew, bind_throws. reflexivity.
      * rewrite bind_throws. reflexivity.
  - unfold update_categories. now rewrite for_of_run, Hprev, bind_throws.
Qed.

(** The shape of every run of [executeUpdate] on a batch that is not empty:
    it stops before the PATCH request with an error, or issues that one
    request and returns the one record the server answered with. *)
Lemma executeUpdate_shape E update rest context :
  exists pre,
    fetches pre = [] /\
    ((exists e, SyncMyPacks_executeUpdate E (update :: rest) context = (pre, Throws e)) \/
     SyncMyPacks_executeUpdate E (update :: rest) context =
     (pre ++ [EvFetch (patch_request E context update)],
      match fetch E (patch_request E context update) with
      | Returns response =>
          Returns {| result := [in_place (formatItem E context) (Response.body response)];
                     continuation := None |}
      | Throws e => Throws e
      end)).
Proof.
  unfold SyncMyPacks_executeUpdate.
  destruct (includes_str "categories" (updatedFields update)).
  - pose proof (update_categories_fetches E context update (newValue update)) as Hf.
    destruct (update_categories E context update (newValue update)) as [pre [[] | e]].
    + exists pre. split; [exact Hf |]. right.
      rewrite bind_returns. unfold fetcher_fetch.
      destruct (fetch E (patch_request E context update)) as [response | e].
      * now rewrite bind_returns.
      * now rewrite bind_throws.
    + exists pre. split; [exact Hf |]. left. exists e. now rewrite bind_throws.
  - exists []. split; [reflexivity |]. right.
    unfold ret. rewrite bind_returns. unfold fetcher_fetch.
    destruct (fetch E (patch_request E context update)) as [response | e].
    + now rewrite bind_returns.
    + now rewrite bind_throws.
Qed.

(** C9. Of a batch of pending edits only the first is processed: the run
    is the run on that edit alone, whatever follows it in the batch.  The
    only request the formula hands to the fetcher is the PATCH whose body
    holds exactly the fields of the first edit's new value (as
    [unformatItem] left it) whose names are in its [updatedFields].  Unless
    the category block stops the update, that PATCH is issued, as the last
    thing the run does, and once it is answered the run returns the answer,
    normalised, as the one record of its result; and a run that returns,
    returns exactly one record. *)
Theorem executeUpdate_first_update_only E update rest context :
  let run := SyncMyPacks_executeUpdate E (update :: rest) context in
  let sent := in_place (unformatItem E) (newValue update) in
  run = SyncMyPacks_executeUpdate E [update] context /\
  (forall req, In req (fetches (trace run)) -> req = patch_request E context update) /\
  (exists fields,
     body (patch_request E context update) = Some (JSON_stringify E (JObj fields)) /\
     fields = filter (fun kv => includes_str (fst kv) (updatedFields update))
                     (entries sent) /\
     (forall k v, In (k, v) fields <->
                  In (k, v) (entries sent) /\ In k (updatedFields update))) /\
  (forall r, outcome run = Returns r ->
     exists response,
       fetch E (patch_request E context update) = Returns response /\
       result r = [in_place (formatItem E context) (Response.body response)] /\
       length (result r) = 1) /\
  (categories_pass E context update ->
   (exists pre,
      fetches pre = [] /\
      trace run = pre ++ [EvFetch (patch_request E context update)]) /\
   fetches (trace run) = [patch_request E context update] /\
   (forall response,
      fetch E (patch_request E context update) = Returns response ->
      outcome run =
      Returns {| result := [in_place (formatItem E context) (Response.body response)];
                 continuation := None |}) /\
   (forall e,
      fetch E (patch_request E context update) = Throws e ->
      outcome run = Throws e)).
Proof.
  intros run sent. unfold run.
  split; [reflexivity |].
  assert (Hfields :
    exists fields,
      body (patch_request E context update) = Some (JSON_stringify E (JObj fields)) /\
      fields = filter (fun kv => includes_str (fst kv) (updatedFields update))
                      (entries sent) /\
      (forall k v, In (k, v) fields <->
                   In (k, v) (entries sent) /\ In k (updatedFields update))).
  { eexists. split; [reflexivity |]. split; [reflexivity |].
    intros k v. rewrite filter_In. simpl. now rewrite includes_str_In. }
  assert (Hpass :
    categories_pass E context update ->
    exists pre,
      fetches pre = [] /\
      SyncMyPacks_executeUpdate E (update :: rest) context =
      (pre ++ [EvFetch (patch_request E context update)],
       match fetch E (patch_request E context update) with
       | Returns response =>
           Returns {| result := [in_place (formatItem E context)
                                          (Response.body response)];
                      continuation := None |}
       | Throws e => Throws e
       end)).
  { intros [Hskip | [prev [new [Hprev [Hnew Hfine]]]]].
    - exists []. split; [reflexivity |].
      apply (executeUpdate_run_unedited E update rest context Hskip).
    - destruct (includes_str "categories" (updatedFields update)) eqn:Hedited.
      + exists (map EvStart (removal_jobs (newValue update) prev new
                             ++ addition_jobs (newValue update) prev new)
                ++ [EvAwaitAll (removal_jobs (newValue update) prev new
                                ++ addition_jobs (newValue update) prev new)]).
        split; [rewrite fetches_app, fetches_starts; reflexivity |].
        rewrite (executeUpdate_run_edited E update rest context prev new
                   Hedited Hprev Hnew).
        rewrite Promise_all_fulfils.
        * now rewrite <- app_assoc.
        * intros p Hp. apply in_map_iff in Hp. destruct Hp as [j [<- Hj]].
          now apply Hfine.
      + exists []. split; [reflexivity |].
        apply (executeUpdate_run_unedited E update rest context Hedited). }
  destruct (executeUpdate_shape E update rest context)
    as [pre [Hpre [[e Hrun] | Hrun]]].
  - split; [rewrite Hrun; simpl; rewrite Hpre; intros req [] |].
    split; [exact Hfields |].
    split; [rewrite Hrun; discriminate |].
    intros Hgo. destruct (Hpass Hgo) as [pre' [Hpre' Hrun']].
    rewrite Hrun'. cbn [trace outcome fst snd].
    split; [now exists pre' |].
    split; [rewrite fetches_app, Hpre'; reflexivity |].
    split; [intros response -> | intros e' ->]; reflexivity.
  - split.
    { rewrite Hrun. simpl. rewrite fetches_app, Hpre. simpl.
      intros req [<- | []]. reflexivity. }
    split; [exact Hfields |].
    split.
    { rewrite Hrun. simpl. intros r Hr.
      destruct (fetch E (patch_request E context update)) as [response | e];
        [| discriminate].
      exists response. inversion Hr. now repeat split. }
    intros Hgo. destruct (Hpass Hgo) as [pre' [Hpre' Hrun']].
    rewrite Hrun'. cbn [trace outcome fst snd].
    split; [now exists pre' |].
    split; [rewrite fetches_app, Hpre'; reflexivity |].
    split; [intros response -> | intros e' ->]; reflexivity.
Qed.

(** On the sample world the batch of two edits comes back as one record. *)
Example executeUpdate_two_edits :
  outcome (SyncMyPacks_executeUpdate Demo.world [Demo.edit; Demo.other_edit] Demo.fresh) =
  Returns {| result := [JObj [("packId", JNum 7); ("name", JStr "Alpha2");
                              ("host", JStr "https://coda.io")]];
             continuation := None |}.
Proof. reflexivity. Qed.

Lemma executeUpdate_first_update_only_witness :
  SyncMyPacks_executeUpdate Demo.world [Demo.edit; Demo.other_edit] Demo.fresh =
  SyncMyPacks_executeUpdate Demo.world [Demo.edit] Demo.fresh /\
  body (patch_request Demo.world Demo.fresh Demo.edit) =
  Some (JSON_stringify Demo.world
          (JObj [("name", JStr "Alpha2"); ("categories", JArr [JStr "B"; JStr "C"])])) /\
  fetches (trace (SyncMyPacks_executeUpdate Demo.world [Demo.edit; Demo.other_edit]
                    Demo.fresh)) =
    [patch_request Demo.world Demo.fresh Demo.edit] /\
  outcome (SyncMyPacks_executeUpdate Demo.world [Demo.edit; Demo.other_edit] Demo.fresh) =
  Returns {| result := [JObj [("packId", JNum 7); ("name", JStr "Alpha2");
                              ("host", JStr "https://coda.io")]];
             continuation := None |}.
Proof.
  assert (Hgo : categories_pass Demo.world Demo.fresh Demo.edit).
  { right. exists [JStr "A"; JStr "B"], [JStr "B"; JStr "C"].
    split; [reflexivity |]. split; [reflexivity |].
    intros j [<- | [<- | []]]; reflexivity. }
  destruct (executeUpdate_first_update_only Demo.world Demo.edit [Demo.other_edit]
              Demo.fresh)
    as [Hfirst [_ [[fields [Hbody [Hfields _]]] [_ Hpass]]]].
  destruct (Hpass Hgo) as [_ [Hfetches [Hanswered _]]].
  split; [exact Hfirst |].
  split; [rewrite Hbody, Hfields; reflexivity |].
  split; [exact Hfetches |].
  apply (Hanswered {| Response.status := 200;
                      Response.body := JObj [("packId", JNum 7);
                                             ("name", JStr "Alpha2")] |}).
  reflexivity.
Defined.

(* ------------------------------------------------------------------------- *)
(** ** Unknown names *)

Lemma SyncPacks_starts_with_fetch E args context :
  hd_error (trace (SyncPacks_execute E args context)) =
  Some (EvFetch (GET (SyncPacks_url E args context))).
Proof.
  unfold SyncPacks_execute. rewrite trace_bind. reflexivity.
Qed.

(** C3, as the code has it.  An unknown dynamic property name makes
    [propertyOptions] of either table throw its user-visible error at once,
    nothing having been fetched or called.  An unknown metadata key makes
    SyncPacks throw the registry's error only after the listing page has
    been fetched: the fetch is the first thing the run does, and once the
    page is there the handlers of the keys that precede the unknown one are
    started before the error is raised. *)
Theorem unknown_names_raise E context args known bad rest :
  propertyName context <> "categories" ->
  metadata args = Some (known ++ bad :: rest) ->
  (forall k, In k known -> assoc k (MetadataTypes E) <> None) ->
  assoc bad (MetadataTypes E) = None ->
  Packs_propertyOptions E context =
    ([], Throws (UserVisibleError ("Unknown property: " ++ propertyName context))) /\
  MyPacks_propertyOptions E context =
    ([], Throws (UserVisibleError ("Unknown property: " ++ propertyName context))) /\
  hd_error (trace (SyncPacks_execute E args context)) =
    Some (EvFetch (GET (SyncPacks_url E args context))) /\
  (forall response page,
     fetch E (GET (SyncPacks_url E args context)) = Returns response ->
     as_array (get "items" (Response.body response)) = Some page ->
     SyncPacks_execute E args context =
     (EvFetch (GET (SyncPacks_url E args context))
        :: map (fun k => EvStart (Enrich k)) known,
      Throws (ConfigurationError bad))).
Proof.
  intros Hname Hkeys Hknown Hbad.
  apply String.eqb_neq in Hname.
  split; [| split; [| split]].
  - unfold Packs_propertyOptions. now rewrite Hname.
  - unfold MyPacks_propertyOptions. now rewrite Hname.
  - apply SyncPacks_starts_with_fetch.
  - intros response page Hfetch Hitems.
    unfold SyncPacks_execute, fetcher_fetch. rewrite Hfetch, bind_returns.
    assert (Hbody : Response.body response <> JNull)
      by (intros Hnull; rewrite Hnull in Hitems; discriminate).
    rewrite !member_run.
    destruct (Response.body response) eqn:Hb; try congruence; try discriminate.
    rewrite !bind_returns, format_each_run, Hitems, bind_returns.
    rewrite Hkeys.
    rewrite (start_enrichments_unknown E context known bad rest _ _ Hknown Hbad).
    rewrite bind_throws. reflexivity.
Qed.

Lemma unknown_names_raise_witness :
  Packs_propertyOptions Demo.world (Demo.asking "makers") =
    ([], Throws (UserVisibleError "Unknown property: makers")) /\
  SyncPacks_execute Demo.world (Demo.args (Some ["versions"; "nope"; "stats"]))
    (Demo.asking "makers") =
    ([EvFetch (GET (SyncPacks_url Demo.world
                      (Demo.args (Some ["versions"; "nope"; "stats"]))
                      (Demo.asking "makers")));
      EvStart (Enrich "versions")],
     Throws (ConfigurationError "nope")).
Proof.
  assert (Hknown : forall k, In k ["versions"] ->
                             assoc k (MetadataTypes Demo.world) <> None).
  { intros k [<- | []]. discriminate. }
  destruct (unknown_names_raise Demo.world (Demo.asking "makers")
              (Demo.args (Some ["versions"; "nope"; "stats"]))
              ["versions"] "nope" ["stats"])
    as [Hprop [_ [_ Hsync]]].
  - simpl. discriminate.
  - reflexivity.
  - exact Hknown.
  - reflexivity.
  - split; [exact Hprop |].
    apply (Hsync {| Response.status := 200;
                    Response.body := JObj [("items", JArr [Demo.pack1; Demo.pack2]);
                                           ("nextPageLink", JStr Demo.page2)] |}
                 [Demo.pack1; Demo.pack2]); reflexivity.
Defined.

(** C3, as the specification words it, fails: with the unknown key "nope"
    SyncPacks has fetched the page by the time the error is raised. *)
Lemma unknown_metadata_key_raised_after_fetch :
  assoc "nope" (MetadataTypes Demo.world) = None /\
  outcome (SyncPacks_execute Demo.world (Demo.args (Some ["versions"; "nope"]))
             Demo.fresh) = Throws (ConfigurationError "nope") /\
  ~ raised_before_fetch
      (SyncPacks_execute Demo.world (Demo.args (Some ["versions"; "nope"])) Demo.fresh).
Proof.
  split; [reflexivity |]. split; [reflexivity |].
  intros [_ Hnone]. discriminate Hnone.
Qed.

(* ------------------------------------------------------------------------- *)
(** ** The SourceCode formula *)

Lemma resolve_version_run E context packId version v :
  version_resolves E context packId version v ->
  exists pre,
    fetches pre = [] /\
    resolve_version E context packId (option_map JStr version) = (pre, Returns v).
Proof.
  unfold version_resolves, resolve_version.
  assert (Hlisted :
    (exists first others,
       getVersions E context packId = Returns (first :: others) /\
       first <> JNull /\ v = get "packVersion" first) ->
    exists pre,
      fetches pre = [] /\
      (versions <- await_helper (GetVersions packId) (getVersions E context packId) ;;
       match versions with
       | [] => throw (TypeError "Cannot read properties of undefined (reading 'packVersion')")
       | first :: _ => member "packVersion" first
       end) = (pre, Returns v)).
  { intros [first [others [Hversions [Hfirst ->]]]].
    exists [EvHelper (GetVersions packId)]. split; [reflexivity |].
    unfold await_helper. rewrite Hversions, bind_returns, member_run.
    destruct first; try congruence; reflexivity. }
  destruct version as [s |]; simpl.
  - destruct (s =? ""); simpl; [exact Hlisted |].
    intros ->. exists []. split; reflexivity.
  - exact Hlisted.
Qed.

Lemma show_source_fetches E files :
  fetches (trace (show_source E files)) =
  match files with
  | Some (file :: _) =>
      match file with JNull => [] | _ => [file_request file] end
  | _ => []
  end.
Proof.
  destruct files as [[| file files] |]; try reflexivity.
  unfold show_source. rewrite member_run.
  destruct file; try reflexivity;
    rewrite bind_returns; unfold fetcher_fetch;
    match goal with
    | |- context [fetch E ?r] => destruct (fetch E r)
    end; reflexivity.
Qed.

(** What SourceCode returns is always the body of a response, escaped and
    wrapped in a [pre] element. *)
Lemma show_source_returns E files html :
  outcome (show_source E files) = Returns html ->
  exists response,
    html = ("<pre>" ++ escape E (Response.body response) ++ "</pre>")%string.
Proof.
  destruct files as [[| file files] |]; try discriminate.
  unfold show_source. rewrite member_run.
  destruct file; try discriminate;
    rewrite bind_returns; unfold fetcher_fetch;
    match goal with
    | |- context [fetch E ?r] => destruct (fetch E r) as [response | e]
    end; try discriminate;
    rewrite bind_returns; intros H; inversion H; now exists response.
Qed.

Lemma SourceCode_returns_inv E packIdOrUrl version context html :
  outcome (SourceCode_execute E packIdOrUrl version context) = Returns html ->
  exists response,
    html = ("<pre>" ++ escape E (Response.body response) ++ "</pre>")%string.
Proof.
  unfold SourceCode_execute. rewrite outcome_bind.
  destruct (outcome (lift (getPackId E context packIdOrUrl))) as [packId | e];
    [| discriminate].
  rewrite outcome_bind.
  destruct (outcome (resolve_version E context packId (option_map JStr version)))
    as [v | e]; [| discriminate].
  rewrite outcome_bind.
  destruct (outcome (await_helper (GetFiles packId v) (getFiles E context packId v)))
    as [files | e]; [| discriminate].
  apply show_source_returns.
Qed.

(** C10. SourceCode, once the pack is identified: the file listing it asks
    for is that of the version argument, or, when that argument is absent,
    of the first entry of the version listing.  An empty (or missing) file
    listing ends in the error "No source code found." with nothing fetched;
    otherwise the one request of the formula fetches the URL of the first
    file of the listing, with authentication disabled, and the formula
    returns the fetched code escaped and wrapped in a [pre] element, as does
    every run that returns. *)
Theorem SourceCode_first_version_first_file E packIdOrUrl version context packId v :
  getPackId E context packIdOrUrl = Returns packId ->
  version_resolves E context packId version v ->
  let run := SourceCode_execute E packIdOrUrl version context in
  In (EvHelper (GetFiles packId v)) (trace run) /\
  (forall files, getFiles E context packId v = Returns files ->
     match files with
     | None | Some [] =>
         outcome run = Throws (Error "No source code found.") /\
         fetches (trace run) = []
     | Some (file :: _) =>
         file <> JNull ->
         fetches (trace run) = [file_request file] /\
         url (file_request file) = get "url" file /\
         disableAuthentication (file_request file) = true /\
         (forall response,
            fetch E (file_request file) = Returns response ->
            outcome run =
            Returns ("<pre>" ++ escape E (Response.body response) ++ "</pre>")%string)
     end) /\
  (forall html, outcome run = Returns html ->
     exists response,
       html = ("<pre>" ++ escape E (Response.body response) ++ "</pre>")%string).
Proof.
  intros Hid Hv run.
  split; [| split]; [| | apply SourceCode_returns_inv].
  - unfold run, SourceCode_execute, lift. rewrite Hid, bind_returns.
    destruct (resolve_version_run E context packId version v Hv) as [pre [_ ->]].
    rewrite bind_returns. simpl. rewrite trace_bind. simpl.
    apply in_or_app. right. now left.
  - intros files Hfiles.
    unfold run, SourceCode_execute, lift. rewrite Hid, bind_returns.
    destruct (resolve_version_run E context packId version v Hv) as [pre [Hpre ->]].
    rewrite bind_returns. unfold await_helper. rewrite Hfiles, bind_returns.
    cbn [trace outcome fst snd app].
    rewrite !fetches_app, Hpre. cbn [fetches flat_map app].
    rewrite show_source_fetches.
    destruct files as [[| file files] |].
    + split; reflexivity.
    + intros Hfile. split; [destruct file; try congruence; reflexivity |].
      split; [reflexivity |]. split; [reflexivity |].
      intros response Hresponse.
      unfold show_source. rewrite member_run.
      destruct file; try congruence;
        rewrite bind_returns; unfold fetcher_fetch; simpl;
        unfold file_request in Hresponse; simpl in Hresponse;
        rewrite Hresponse, bind_returns; reflexivity.
    + split; reflexivity.
Qed.

Lemma SourceCode_first_version_first_file_witness :
  let run := SourceCode_execute Demo.world "7" None Demo.fresh in
  In (EvHelper (GetFiles (JStr "7") (Some (JStr "2.0")))) (trace run) /\
  fetches (trace run) = [file_request (JObj [("url", JStr "https://files/7/2.0")])] /\
  outcome run = Returns "<pre>if (a &lt; b) { go(); }</pre>".
Proof.
  assert (Hv : version_resolves Demo.world Demo.fresh (JStr "7") None (Some (JStr "2.0"))).
  { exists (JObj [("packVersion", JStr "2.0")]), [JObj [("packVersion", JStr "1.0")]].
    split; [reflexivity |]. split; [discriminate | reflexivity]. }
  destruct (SourceCode_first_version_first_file Demo.world "7" None Demo.fresh
              (JStr "7") (Some (JStr "2.0")) eq_refl Hv) as [Hasked [Hfiles _]].
  specialize (Hfiles (Some [JObj [("url", JStr "https://files/7/2.0")]]) eq_refl).
  simpl in Hfiles.
  destruct Hfiles as [Hfetch [_ [_ Hcode]]]; [discriminate |].
  intros run. split; [exact Hasked |]. split; [exact Hfetch |].
  apply (Hcode {| Response.status := 200;
                  Response.body := JStr "if (a < b) { go(); }" |}).
  reflexivity.
Defined.

(** With an empty file listing nothing is fetched. *)
Example SourceCode_no_files :
  SourceCode_execute Demo.world_empty "7" (Some "1.0") Demo.fresh =
  ([EvHelper (GetFiles (JStr "7") (Some (JStr "1.0")))],
   Throws (Error "No source code found.")).
Proof. reflexivity. Qed.

(* ------------------------------------------------------------------------- *)
(** ** Normalisation *)

(** [formatItem] and [unformatItem] are defined in [./helpers]; [pack.ts]
    only calls them.  Whatever they are, they cannot be both idempotent and
    inverse to one another on every item unless normalising changes
    nothing. *)
Remark normalisation_laws_force_identity E context :
  (forall i, formatItem E context (formatItem E context i) = formatItem E context i) ->
  (forall i, unformatItem E (formatItem E context i) = i) ->
  forall i, formatItem E context i = i.
Proof.
  intros Hidem Hinv i.
  rewrite <- (Hinv (formatItem E context i)) at 1.
  rewrite Hidem. apply Hinv.
Qed.

(* ------------------------------------------------------------------------- *)
(** ** Further properties of the sync formulas *)







(** X3. A fetch that fails is not retried and nothing is started after it:
    the sync formulas, and the Pack formula once the pack is identified,
    throw the fetcher's error as it is, the failed request being the only
    effect of the run. *)
Theorem fetch_failure_propagates E f context packIdOrUrl packId e :
  (fetch E (sync_request E f context) = Throws e ->
   sync_execute E f context = ([EvFetch (sync_request E f context)], Throws e)) /\
  (getPackId E context packIdOrUrl = Returns packId ->
   fetch E (GET (Pack_url E context packId)) = Throws e ->
   Pack_execute E packIdOrUrl context =
   ([EvFetch (GET (Pack_url E context packId))], Throws e)).
Proof.
  split.
  - intros Hfetch. destruct f as [args |]; simpl in *.
    + unfold SyncPacks_execute, fetcher_fetch. now rewrite Hfetch, bind_throws.
    + unfold SyncMyPacks_execute, fetcher_fetch. now rewrite Hfetch, bind_throws.
  - intros Hid Hfetch.
    unfold Pack_execute, lift, fetcher_fetch.
    now rewrite Hid, bind_returns, Hfetch, bind_throws.
Qed.

Lemma fetch_failure_propagates_witness :
  sync_execute Cases.offline (SyncPacks (Demo.args (Some ["versions"]))) Demo.fresh =
    ([EvFetch (sync_request Cases.offline (SyncPacks (Demo.args (Some ["versions"])))
                 Demo.fresh)],
     Throws (TransportError "offline")) /\
  Pack_execute Cases.offline "7" Demo.fresh =
    ([EvFetch (GET (Pack_url Cases.offline Demo.fresh (JStr "7")))],
     Throws (TransportError "offline")).
Proof.
  split.
  - apply (proj1 (fetch_failure_propagates Cases.offline
                    (SyncPacks (Demo.args (Some ["versions"]))) Demo.fresh
                    "7" (JStr "7") (TransportError "offline"))).
    reflexivity.
  - apply (proj2 (fetch_failure_propagates Cases.offline SyncMyPacks Demo.fresh
                    "7" (JStr "7") (TransportError "offline"))); reflexivity.
Defined.

(** X4. A page without an iterable [items] (no such field, null, a number,
    a boolean or a plain object, or a null body) makes either sync formula
    throw a TypeError right after its fetch: no item is returned and no
    job is started. *)
Theorem sync_without_items_throws E f context response :
  fetch E (sync_request E f context) = Returns response ->
  not_iterable (get "items" (Response.body response)) = true ->
  exists message,
    sync_execute E f context =
    ([EvFetch (sync_request E f context)], Throws (TypeError message)).
Proof.
  intros Hfetch Hitems.
  destruct f as [args |]; simpl in *.
  - unfold SyncPacks_execute, fetcher_fetch.
    rewrite Hfetch, bind_returns, !member_run.
    destruct (Response.body response) eqn:Hbody.
    + rewrite bind_throws. now eexists.
    + rewrite !bind_returns, format_each_run. simpl. now eexists.
    + rewrite !bind_returns, format_each_run. simpl. now eexists.
    + rewrite !bind_returns, format_each_run. simpl. now eexists.
    + rewrite !bind_returns, format_each_run. simpl. now eexists.
    + rewrite !bind_returns, format_each_run.
      simpl in Hitems. simpl get.
      destruct (assoc "items" props) as [[| | | | |] |]; try discriminate;
        simpl; now eexists.
  - unfold SyncMyPacks_execute, fetcher_fetch.
    rewrite Hfetch, bind_returns, !member_run.
    destruct (Response.body response) eqn:Hbody.
    + rewrite bind_throws. now eexists.
    + rewrite !bind_returns, format_each_run. simpl. now eexists.
    + rewrite !bind_returns, format_each_run. simpl. now eexists.
    + rewrite !bind_returns, format_each_run. simpl. now eexists.
    + rewrite !bind_returns, format_each_run. simpl. now eexists.
    + rewrite !bind_returns, format_each_run.
      simpl in Hitems. simpl get.
      destruct (assoc "items" props) as [[| | | | |] |]; try discriminate;
        simpl; now eexists.
Qed.

Lemma sync_without_items_throws_witness :
  exists message,
    sync_execute (Cases.answering (JObj [("nextPageLink", JStr Demo.page2)]))
      SyncMyPacks Demo.fresh =
    ([EvFetch (sync_request (Cases.answering (JObj [("nextPageLink", JStr Demo.page2)]))
                 SyncMyPacks Demo.fresh)],
     Throws (TypeError message)).
Proof.
  apply (sync_without_items_throws
           (Cases.answering (JObj [("nextPageLink", JStr Demo.page2)]))
           SyncMyPacks Demo.fresh
           {| Response.status := 200;
              Response.body := JObj [("nextPageLink", JStr Demo.page2)] |});
    reflexivity.
Defined.

(* ------------------------------------------------------------------------- *)
(** ** Further properties of the Pack formula and of enrichment *)

Lemma registry_keys_registered {A : Type} (ps : list (string * A)) :
  forall k, In k (map fst ps) -> assoc k ps <> None.
Proof.
  induction ps as [| [k' x] ps IH]; simpl; intros k Hk; [contradiction |].
  destruct (String.eqb_spec k k') as [-> | Hne]; [discriminate |].
  destruct Hk as [<- | Hk]; [congruence | now apply IH].
Qed.

(** X5. The Pack formula on a listing that has items: after its one fetch
    it starts the handler of every key of the registry, in the registry's
    order, awaits them all, and returns the first item of the listing,
    normalised and as the handlers left it, whatever handlers failed.  Only
    that first item is normalised; with handlers that only attach fields,
    what is returned has every field of the normalised first item. *)
Theorem Pack_returns_first_item E packIdOrUrl context packId response item rest :
  getPackId E context packIdOrUrl = Returns packId ->
  fetch E (GET (Pack_url E context packId)) = Returns response ->
  as_array (get "items" (Response.body response)) = Some (item :: rest) ->
  let first := in_place (formatItem E context) item in
  let keys := map fst (MetadataTypes E) in
  let page := enriched E context keys (first :: rest) in
  Pack_execute E packIdOrUrl context =
    (EvFetch (GET (Pack_url E context packId))
       :: map (fun k => EvStart (Enrich k)) keys
       ++ [EvAwaitAllSettled (map Enrich keys)],
     Returns (nth 0 page first)) /\
  (attach_only E -> extends first (nth 0 page first)).
Proof.
  intros Hid Hfetch Hitems first keys page.
  split.
  - unfold Pack_execute, lift, fetcher_fetch.
    rewrite Hid, bind_returns, Hfetch, bind_returns, member_run.
    assert (Hbody : Response.body response <> JNull)
      by (intros Hnull; rewrite Hnull in Hitems; discriminate).
    destruct (Response.body response) eqn:Hb; try congruence; try discriminate.
    rewrite bind_returns, Hitems.
    fold first. fold keys.
    rewrite (start_enrichments_registered E context keys (first :: rest) []
               (registry_keys_registered (MetadataTypes E))).
    rewrite bind_returns. reflexivity.
  - intros Hattach.
    pose proof (enriched_extends E context keys Hattach (first :: rest)) as Hext.
    fold page in Hext.
    inversion Hext; subst. simpl. assumption.
Qed.

Lemma Pack_returns_first_item_witness :
  outcome (Pack_execute Demo.world "7" Demo.fresh) =
  Returns (JObj [("packId", JNum 7); ("name", JStr "Alpha");
                 ("categories", JArr [JStr "A"; JStr "B"]);
                 ("host", JStr "https://coda.io");
                 ("versions", JArr [JStr "1.0"]); ("stats", JNum 1)]).
Proof.
  destruct (Pack_returns_first_item Demo.world "7" Demo.fresh (JStr "7")
              {| Response.status := 200;
                 Response.body := JObj [("items", JArr [Demo.pack1; Demo.pack2]);
                                        ("nextPageLink", JStr Demo.page2)] |}
              Demo.pack1 [Demo.pack2] eq_refl eq_refl eq_refl) as [Hrun _].
  rewrite Hrun. reflexivity.
Defined.

(** What the enrichment loop has done when it comes to its end. *)
Lemma start_enrichments_returns E context keys :
  forall items jobs page jobs',
    outcome (start_enrichments E context keys items jobs) = Returns (page, jobs') ->
    (forall k, In k keys -> assoc k (MetadataTypes E) <> None) /\
    trace (start_enrichments E context keys items jobs) =
      map (fun k => EvStart (Enrich k)) keys /\
    jobs' = jobs ++ map Enrich keys.
Proof.
  induction keys as [| key rest IH]; intros items jobs page jobs' H.
  - simpl in H. inversion H; subst. split; [intros k [] |].
    split; [reflexivity | now rewrite app_nil_r].
  - simpl in H |- *. unfold getMetdataSettings in *.
    destruct (assoc key (MetadataTypes E)) as [settings |] eqn:Hkey.
    + unfold lift, start_callback in *.
      rewrite bind_returns, bind_returns in H |- *. simpl in H |- *.
      destruct (IH _ _ _ _ H) as [Hreg [Htrace Hjobs]].
      split; [| split].
      * intros k [<- | Hk]; [congruence | now apply Hreg].
      * now rewrite Htrace.
      * rewrite Hjobs. now rewrite <- app_assoc.
    + unfold lift in H. rewrite bind_throws in H. discriminate.
Qed.

(** A run of SyncPacks that returns has fetched a page with an array of
    items, and found every requested key in the registry. *)
Lemma SyncPacks_returns_inv E args context r :
  outcome (SyncPacks_execute E args context) = Returns r ->
  exists response page,
    fetch E (GET (SyncPacks_url E args context)) = Returns response /\
    as_array (get "items" (Response.body response)) = Some page /\
    (forall k, In k (match metadata args with Some m => m | None => [] end) ->
               assoc k (MetadataTypes E) <> None).
Proof.
  unfold SyncPacks_execute. rewrite outcome_bind. unfold fetcher_fetch at 1. simpl.
  destruct (fetch E (GET (SyncPacks_url E args context))) as [response | e];
    [| discriminate].
  intros H. exists response.
  rewrite outcome_bind, member_run in H. simpl in H.
  destruct (Response.body response) eqn:Hbody; simpl in H; try discriminate.
  all: rewrite outcome_bind, member_run in H; simpl in H.
  all: rewrite outcome_bind, format_each_run in H; simpl in H.
  all: try discriminate.
  destruct (as_array (assoc "items" props)) as [page |] eqn:Hitems;
    simpl in H; [| discriminate].
  exists page. split; [reflexivity |]. split; [exact Hitems |].
  rewrite outcome_bind in H.
  destruct (outcome (start_enrichments E context _ _ _)) as [[items jobs] | e] eqn:Hloop;
    [| discriminate].
  apply (start_enrichments_returns E context _ _ _ items jobs Hloop).
Qed.

(** X6. A run of SyncPacks that returns has started one enrichment job per
    requested key (per occurrence, in the order of the request), all of
    them after the fetch and before its one [Promise.allSettled], which
    awaits exactly the jobs that were started; every requested key was then
    a key of the registry. *)
Theorem SyncPacks_awaits_what_it_starts E args context r :
  outcome (SyncPacks_execute E args context) = Returns r ->
  let keys := match metadata args with Some m => m | None => [] end in
  trace (SyncPacks_execute E args context) =
    EvFetch (GET (SyncPacks_url E args context))
      :: map (fun k => EvStart (Enrich k)) keys
      ++ [EvAwaitAllSettled (map Enrich keys)] /\
  started (trace (SyncPacks_execute E args context)) = map Enrich keys /\
  (forall k, In k keys -> assoc k (MetadataTypes E) <> None).
Proof.
  intros Hret keys.
  destruct (SyncPacks_returns_inv E args context r Hret)
    as [response [page [Hfetch [Hitems Hreg]]]].
  fold keys in Hreg.
  rewrite (SyncPacks_run E args context response page Hreg Hfetch Hitems).
  fold keys. simpl trace.
  split; [reflexivity |]. split; [| exact Hreg].
  simpl. rewrite started_app. simpl. rewrite app_nil_r.
  rewrite <- map_map with (f := Enrich) (g := EvStart).
  apply started_starts.
Qed.

Lemma SyncPacks_awaits_what_it_starts_witness :
  started (trace (SyncPacks_execute Demo.world
                    (Demo.args (Some ["stats"; "files"; "stats"])) Demo.fresh)) =
  [Enrich "stats"; Enrich "files"; Enrich "stats"].
Proof.
  eapply (SyncPacks_awaits_what_it_starts Demo.world
            (Demo.args (Some ["stats"; "files"; "stats"])) Demo.fresh).
  reflexivity.
Defined.

(* ------------------------------------------------------------------------- *)
(** ** Further properties of the update path *)

Lemma assoc_filter_none {A : Type} (k : string) (p : string * A -> bool)
    (ps : list (string * A)) :
  (forall x, p (k, x) = false) -> assoc k (filter p ps) = None.
Proof.
  intros Hp.
  induction ps as [| [k' x] ps IH]; simpl; [reflexivity |].
  destruct (p (k', x)) eqn:Hkeep; [| exact IH].
  simpl. destruct (String.eqb_spec k k') as [-> | Hne]; [| exact IH].
  rewrite Hp in Hkeep. discriminate.
Qed.

(** X7. An edit that does not name "categories" among its updated fields
    leaves the categories alone, even when the two values differ in them:
    no category job is started, the PATCH request is the only effect of
    the run, and the body of that request has no "categories" field. *)
Theorem unreported_categories_untouched E update rest context :
  ~ In "categories" (updatedFields update) ->
  let run := SyncMyPacks_executeUpdate E (update :: rest) context in
  trace run = [EvFetch (patch_request E context update)] /\
  started (trace run) = [] /\
  exists fields,
    body (patch_request E context update) = Some (JSON_stringify E (JObj fields)) /\
    assoc "categories" fields = None.
Proof.
  intros Hnot run.
  assert (Hunedited : includes_str "categories" (updatedFields update) = false).
  { destruct (includes_str "categories" (updatedFields update)) eqn:Hin;
      [| reflexivity].
    apply includes_str_In in Hin. contradiction. }
  unfold run. rewrite (executeUpdate_run_unedited E update rest context Hunedited).
  split; [reflexivity |]. split; [reflexivity |].
  eexists. split; [reflexivity |].
  apply assoc_filter_none. intros x. exact Hunedited.
Qed.

Lemma unreported_categories_untouched_witness :
  trace (SyncMyPacks_executeUpdate Demo.world [Cases.unreported] Demo.fresh) =
    [EvFetch (patch_request Demo.world Demo.fresh Cases.unreported)] /\
  body (patch_request Demo.world Demo.fresh Cases.unreported) =
    Some (JSON_stringify Demo.world (JObj [("name", JStr "Alpha2")])).
Proof.
  assert (Hnot : ~ In "categories" (updatedFields Cases.unreported)).
  { simpl. intros [H | []]. discriminate H. }
  destruct (unreported_categories_untouched Demo.world Cases.unreported [] Demo.fresh Hnot)
    as [Htrace _].
  split; [exact Htrace | reflexivity].
Defined.

Lemma push_removals_without_new E context update pack prev jobs :
  as_array (get "categories" (newValue update)) = None ->
  (prev = [] /\ push_removals E context update pack prev jobs = ([], Returns jobs)) \/
  exists message,
    push_removals E context update pack prev jobs = ([], Throws (TypeError message)).
Proof.
  intros Hnew. destruct prev as [| category prev]; simpl.
  - left. split; reflexivity.
  - right. rewrite includes_in_run, Hnew, bind_throws. now eexists.
Qed.

(** X8. An edit of the categories in which either value has no
    [categories] field throws a TypeError before anything is done: no
    category job is started and no PATCH request is issued. *)
Theorem update_without_categories_throws E update rest context :
  In "categories" (updatedFields update) ->
  get "categories" (previousValue update) = None \/
  get "categories" (newValue update) = None ->
  exists message,
    SyncMyPacks_executeUpdate E (update :: rest) context =
    ([], Throws (TypeError message)).
Proof.
  intros Hedited Hmissing.
  apply includes_str_In in Hedited.
  unfold SyncMyPacks_executeUpdate. rewrite Hedited.
  unfold update_categories. rewrite for_of_run.
  destruct (as_array (get "categories" (previousValue update))) as [prev |] eqn:Hprev.
  - destruct Hmissing as [Hp | Hn]; [rewrite Hp in Hprev; discriminate |].
    assert (Hnew : as_array (get "categories" (newValue update)) = None)
      by now rewrite Hn.
    rewrite bind_returns.
    destruct (push_removals_without_new E context update (newValue update) prev [] Hnew)
      as [[_ ->] | [message ->]].
    + rewrite bind_returns, for_of_run, Hnew, !bind_throws. now eexists.
    + rewrite !bind_throws. now eexists.
  - rewrite !bind_throws. now eexists.
Qed.

Lemma update_without_categories_throws_witness :
  exists message,
    SyncMyPacks_executeUpdate Demo.world [Cases.truncated] Demo.fresh =
    ([], Throws (TypeError message)).
Proof.
  apply (update_without_categories_throws Demo.world Cases.truncated [] Demo.fresh).
  - simpl. now left.
  - right. reflexivity.
Defined.

Lemma occurrences_absent (c : string) (l : list string) :
  includes_str c l = false -> length (filter (String.eqb c) l) = 0.
Proof.
  induction l as [| x l IH]; simpl; [reflexivity |].
  destruct (c =? x); simpl; [discriminate | exact IH].
Qed.

(** X9. The category jobs of an edit, for any two arrays of category
    names, duplicates included: a category of the previous array that the
    new array lacks gets one removal job per occurrence in the previous
    array, a category the new array has gets none; additions likewise the
    other way round; and no category ever gets both a removal and an
    addition job. *)
Theorem category_jobs_per_occurrence E update rest context (prev new : list string) :
  get "categories" (previousValue update) = Some (JArr (map JStr prev)) ->
  get "categories" (newValue update) = Some (JArr (map JStr new)) ->
  In "categories" (updatedFields update) ->
  let t := trace (SyncMyPacks_executeUpdate E (update :: rest) context) in
  forall c,
    removals_for c t =
      (if includes_str c new then 0 else length (filter (String.eqb c) prev)) /\
    additions_for c t =
      (if includes_str c prev then 0 else length (filter (String.eqb c) new)) /\
    (removals_for c t = 0 \/ additions_for c t = 0).
Proof.
  intros Hprev Hnew Hedited t c.
  apply includes_str_In in Hedited.
  assert (Hcounts :
    removals_for c t =
      (if includes_str c new then 0 else length (filter (String.eqb c) prev)) /\
    additions_for c t =
      (if includes_str c prev then 0 else length (filter (String.eqb c) new))).
  { unfold t.
    rewrite (executeUpdate_run_edited E update rest context
               (map JStr prev) (map JStr new) Hedited)
      by (rewrite ?Hprev, ?Hnew; reflexivity).
    assert (Hshape : forall tail,
      started tail = [] ->
      removals_for c
        (map EvStart (removal_jobs (newValue update) (map JStr prev) (map JStr new)
                      ++ addition_jobs (newValue update) (map JStr prev) (map JStr new))
         ++ tail) =
        (if includes_str c new then 0 else length (filter (String.eqb c) prev)) /\
      additions_for c
        (map EvStart (removal_jobs (newValue update) (map JStr prev) (map JStr new)
                      ++ addition_jobs (newValue update) (map JStr prev) (map JStr new))
         ++ tail) =
        (if includes_str c prev then 0 else length (filter (String.eqb c) new))).
    { intros tail Htail.
      rewrite removals_for_app, additions_for_app, map_app.
      rewrite removals_for_app, additions_for_app.
      rewrite removals_for_removal_jobs, removals_for_addition_jobs.
      rewrite additions_for_removal_jobs, additions_for_addition_jobs.
      unfold removals_for at 1. unfold additions_for at 1. rewrite Htail. simpl.
      rewrite !occurrences_filter, !Nat.add_0_r.
      destruct (includes_str c prev), (includes_str c new); split; reflexivity. }
    destruct (Promise_all _) as [[] | e]; simpl trace; apply Hshape; reflexivity. }
  destruct Hcounts as [Hrem Hadd].
  split; [exact Hrem |]. split; [exact Hadd |].
  rewrite Hrem, Hadd.
  destruct (includes_str c new) eqn:Hn; [now left |].
  right. destruct (includes_str c prev); [reflexivity |].
  now apply occurrences_absent.
Qed.

Lemma category_jobs_per_occurrence_witness :
  let t := trace (SyncMyPacks_executeUpdate Demo.world [Cases.doubled] Demo.fresh) in
  removals_for "A" t = 2 /\ additions_for "C" t = 1 /\ removals_for "B" t = 0.
Proof.
  assert (Hedited : In "categories" (updatedFields Cases.doubled)) by (simpl; now left).
  pose proof (category_jobs_per_occurrence Demo.world Cases.doubled [] Demo.fresh
                ["A"; "B"; "A"] ["B"; "C"] eq_refl eq_refl Hedited) as H.
  simpl in H. intros t.
  split; [apply (H "A") |]. split; [apply (H "C") | apply (H "B")].
Defined.

(* ------------------------------------------------------------------------- *)
(** ** Further properties of the SourceCode formula *)

Lemma asks_versions_app (t u : list event) :
  asks_versions (t ++ u) = asks_versions t || asks_versions u.
Proof. unfold asks_versions. apply existsb_app. Qed.

Lemma show_source_asks_no_versions E files :
  asks_versions (trace (show_source E files)) = false.
Proof.
  destruct files as [[| file files] |]; try reflexivity.
  unfold show_source. rewrite member_run.
  destruct file; try reflexivity;
    rewrite bind_returns; unfold fetcher_fetch;
    match goal with
    | |- context [fetch E ?r] => destruct (fetch E r)
    end; reflexivity.
Qed.

(** X10. SourceCode with a version argument (not empty): the version
    listing is never asked for, and the first thing the formula does is to
    ask for the files of exactly that version. *)
Theorem SourceCode_given_version_skips_listing E packIdOrUrl v context packId :
  getPackId E context packIdOrUrl = Returns packId ->
  v <> "" ->
  let run := SourceCode_execute E packIdOrUrl (Some v) context in
  hd_error (trace run) = Some (EvHelper (GetFiles packId (Some (JStr v)))) /\
  asks_versions (trace run) = false.
Proof.
  intros Hid Hv run.
  apply String.eqb_neq in Hv.
  unfold run, SourceCode_execute, lift, resolve_version.
  rewrite Hid, bind_returns. simpl option_map. simpl truthy. rewrite Hv. simpl negb.
  cbv iota. unfold ret. rewrite bind_returns. unfold await_helper.
  destruct (getFiles E context packId (Some (JStr v))) as [files | e].
  - rewrite ?bind_returns. simpl trace. split; [reflexivity |].
    simpl. apply show_source_asks_no_versions.
  - rewrite ?bind_throws. split; reflexivity.
Qed.

Lemma SourceCode_given_version_skips_listing_witness :
  hd_error (trace (SourceCode_execute Demo.world "7" (Some "1.0") Demo.fresh)) =
    Some (EvHelper (GetFiles (JStr "7") (Some (JStr "1.0")))) /\
  asks_versions (trace (SourceCode_execute Demo.world "7" (Some "1.0") Demo.fresh)) = false.
Proof.
  apply (SourceCode_given_version_skips_listing Demo.world "7" "1.0" Demo.fresh (JStr "7")).
  - reflexivity.
  - discriminate.
Defined.

(** X11. SourceCode without a version argument (absent or empty), when the
    version listing gives no first entry: if the listing fails, its error
    is thrown as it is; if it is empty, a TypeError is thrown.  Either way
    asking for the versions is all the run has done: no file listing is
    asked for and nothing is fetched. *)
Theorem SourceCode_without_any_version E packIdOrUrl version context packId :
  getPackId E context packIdOrUrl = Returns packId ->
  version = None \/ version = Some "" ->
  let run := SourceCode_execute E packIdOrUrl version context in
  (forall e, getVersions E context packId = Throws e ->
     run = ([EvHelper (GetVersions packId)], Throws e)) /\
  (getVersions E context packId = Returns [] ->
     exists message, run = ([EvHelper (GetVersions packId)], Throws (TypeError message))).
Proof.
  intros Hid Hversion run.
  assert (Hfalsy : truthy (option_map JStr version) = false)
    by (destruct Hversion as [-> | ->]; reflexivity).
  unfold run, SourceCode_execute, lift, resolve_version.
  rewrite Hid, bind_returns, Hfalsy. simpl negb. cbv iota. unfold await_helper.
  split.
  - intros e He. rewrite He, !bind_throws. reflexivity.
  - intros Hempty. rewrite Hempty, bind_returns. unfold throw.
    cbn [trace outcome fst snd app]. rewrite bind_throws. now eexists.
Qed.

Lemma SourceCode_without_any_version_witness :
  exists message,
    SourceCode_execute (Cases.with_versions (Returns []) Demo.world) "7" (Some "")
      Demo.fresh =
    ([EvHelper (GetVersions (JStr "7"))], Throws (TypeError message)).
Proof.
  apply (SourceCode_without_any_version (Cases.with_versions (Returns []) Demo.world)
           "7" (Some "") Demo.fresh (JStr "7")).
  - reflexivity.
  - now right.
  - reflexivity.
Defined.

(* ------------------------------------------------------------------------- *)
(** ** The PhoneNumber pack *)

Lemma assoc_assign_same (k : string) (v : json) (ps : list (string * json)) :
  assoc k (Phone.assign k v ps) = Some v.
Proof.
  induction ps as [| [k' x] ps IH]; simpl.
  - now rewrite String.eqb_refl.
  - destruct (String.eqb_spec k k') as [-> | Hne]; simpl.
    + now rewrite String.eqb_refl.
    + destruct (String.eqb_spec k k'); [contradiction | exact IH].
Qed.

Lemma assoc_assign_other (k k' : string) (v : json) (ps : list (string * json)) :
  k <> k' -> assoc k' (Phone.assign k v ps) = assoc k' ps.
Proof.
  intros Hne.
  induction ps as [| [k0 x] ps IH]; simpl.
  - destruct (String.eqb_spec k' k); [congruence | reflexivity].
  - destruct (String.eqb_spec k k0) as [-> | Hk]; simpl.
    + destruct (String.eqb_spec k' k0); [congruence | reflexivity].
    + destruct (String.eqb_spec k' k0); [reflexivity | exact IH].
Qed.

Lemma assoc_set_prop_same (k : string) (v : option json) (ps : list (string * json)) :
  assoc k (Phone.set_prop k v ps) = v.
Proof.
  destruct v as [x |]; simpl.
  - apply assoc_assign_same.
  - apply assoc_filter_none. intros x. simpl. now rewrite String.eqb_refl.
Qed.

Lemma assoc_set_prop_other (k k' : string) (v : option json)
    (ps : list (string * json)) :
  k <> k' -> assoc k' (Phone.set_prop k v ps) = assoc k' ps.
Proof.
  intros Hne. destruct v as [x |]; simpl.
  - now apply assoc_assign_other.
  - induction ps as [| [k0 y] ps IH]; simpl; [reflexivity |].
    destruct (String.eqb_spec k k0) as [-> | Hk]; simpl.
    + destruct (String.eqb_spec k' k0); [congruence | exact IH].
    + destruct (String.eqb_spec k' k0); [reflexivity | exact IH].
Qed.

(** X12. The three formulas agree on what a phone number is: an input that
    IsPhoneNumber answers false to makes FormatPhoneNumber throw "Invalid
    phone number", whatever format is asked for (a format that does not
    exist included), and PhoneNumberInfo throw "Invalid phone number: "
    followed by the input. *)
Theorem invalid_number_rejected L input region format :
  outcome (Phone.IsPhoneNumber_execute L input region) = Returns false ->
  outcome (Phone.FormatPhoneNumber_execute L input region format) =
    Throws (UserVisibleError "Invalid phone number") /\
  outcome (Phone.PhoneNumberInfo_execute L input region) =
    Throws (UserVisibleError ("Invalid phone number: " ++ input)).
Proof.
  unfold Phone.IsPhoneNumber_execute, Phone.FormatPhoneNumber_execute,
    Phone.PhoneNumberInfo_execute.
  simpl. intros Hvalid. inversion Hvalid as [Hfalse]. rewrite Hfalse.
  split; reflexivity.
Qed.

Lemma invalid_number_rejected_witness :
  outcome (Phone.FormatPhoneNumber_execute Phone.sample_lib "Chair" None (Some "E164")) =
    Throws (UserVisibleError "Invalid phone number") /\
  outcome (Phone.PhoneNumberInfo_execute Phone.sample_lib "Chair" None) =
    Throws (UserVisibleError "Invalid phone number: Chair").
Proof.
  apply (invalid_number_rejected Phone.sample_lib "Chair" None (Some "E164")).
  reflexivity.
Defined.

(** The format check of FormatPhoneNumber lets through an absent format,
    the empty string and the five listed formats, and nothing else. *)
Lemma format_check_passes (format : option string) :
  truthy (option_map JStr format)
    && negb (match format with
             | Some f => includes_str f Phone.Formats
             | None => false
             end) = false <->
  match format with
  | None => True
  | Some f => f = "" \/ In f Phone.Formats
  end.
Proof.
  destruct format as [f |]; [| split; [trivial | reflexivity]].
  cbn [option_map truthy].
  destruct (String.eqb_spec f "") as [-> | Hne]; cbn [negb andb].
  - split; [now left | reflexivity].
  - destruct (includes_str f Phone.Formats) eqn:Hin; cbn [negb].
    + apply includes_str_In in Hin. split; [now right | reflexivity].
    + split; [discriminate |].
      intros [Hempty | Hlisted]; [contradiction |].
      apply includes_str_In in Hlisted. congruence.
Qed.

(** X13. FormatPhoneNumber returns exactly when IsPhoneNumber answers true
    and the format is absent, empty or one of the five formats (in lower
    case, as they are listed); what it returns is then the library's
    rendering of the number in the format as it was given. *)
Theorem FormatPhoneNumber_returns_iff L input region format s :
  outcome (Phone.FormatPhoneNumber_execute L input region format) = Returns s <->
  outcome (Phone.IsPhoneNumber_execute L input region) = Returns true /\
  match format with
  | None => True
  | Some f => f = "" \/ In f Phone.Formats
  end /\
  s = Phone.getNumber (Phone.parsePhoneNumber L input region) format.
Proof.
  rewrite <- format_check_passes.
  unfold Phone.FormatPhoneNumber_execute, Phone.IsPhoneNumber_execute.
  cbn [outcome snd ret].
  destruct (Phone.isValid (Phone.parsePhoneNumber L input region)); cbn [negb].
  - destruct (truthy (option_map JStr format) && negb _) eqn:Hcheck;
      cbn [outcome snd ret throw].
    + split; [discriminate | intros [_ [H _]]; discriminate].
    + split; [intros H; inversion H; auto | intros [_ [_ ->]]; reflexivity].
  - cbn [outcome snd throw].
    split; [discriminate | intros [H _]; discriminate].
Qed.

(** X14. What the autocomplete of the format parameter offers is what the
    formula accepts: it offers the five formats, in their order, each
    displayed with the example number rendered in it, and on a valid
    number FormatPhoneNumber returns for every value it offers. *)
Theorem autocomplete_offers_accepted_formats L input region :
  map (get "value") (Phone.format_autocomplete L) =
    map (fun f => Some (JStr f)) Phone.Formats /\
  (forall offer f,
     In offer (Phone.format_autocomplete L) ->
     get "value" offer = Some (JStr f) ->
     get "display" offer =
       Some (JStr (f ++ " - " ++
                   Phone.getNumber (Phone.parsePhoneNumber L "+19164451254" None)
                                   (Some f))%string) /\
     (outcome (Phone.IsPhoneNumber_execute L input region) = Returns true ->
      outcome (Phone.FormatPhoneNumber_execute L input region (Some f)) =
      Returns (Phone.getNumber (Phone.parsePhoneNumber L input region) (Some f)))).
Proof.
  split; [reflexivity |].
  intros offer f Hin Hvalue.
  unfold Phone.format_autocomplete in Hin.
  apply in_map_iff in Hin. destruct Hin as [f0 [<- Hf0]].
  cbn in Hvalue. inversion Hvalue; subst f0.
  split; [reflexivity |].
  unfold Phone.IsPhoneNumber_execute, Phone.FormatPhoneNumber_execute.
  cbn [outcome snd ret]. intros Hvalid. inversion Hvalid as [Hv]. rewrite Hv.
  cbn [negb].
  rewrite (proj2 (format_check_passes (Some f)) (or_intror Hf0)).
  reflexivity.
Qed.

(** X15. PhoneNumberInfo on a valid number whose JSON form carries the
    [number] object: the result is that JSON form with three fields set,
    [formats] to the [number] object, [input] to the [input] of that
    object and [countryCode] to the library's country code, and with every
    other field, [number] itself among them, as the library gave it. *)
Theorem PhoneNumberInfo_result L input region number :
  let parsed := Phone.parsePhoneNumber L input region in
  outcome (Phone.IsPhoneNumber_execute L input region) = Returns true ->
  assoc "number" (Phone.toJSON parsed) = Some number ->
  number <> JNull ->
  exists result,
    outcome (Phone.PhoneNumberInfo_execute L input region) = Returns (JObj result) /\
    assoc "formats" result = Some number /\
    assoc "input" result = get "input" number /\
    assoc "countryCode" result = Some (Phone.getCountryCode parsed) /\
    (forall k, k <> "formats" -> k <> "input" -> k <> "countryCode" ->
               assoc k result = assoc k (Phone.toJSON parsed)).
Proof.
  intros parsed Hvalid Hnumber Hnull. subst parsed.
  unfold Phone.IsPhoneNumber_execute in Hvalid. cbn [outcome snd ret] in Hvalid.
  inversion Hvalid as [Hv].
  unfold Phone.PhoneNumberInfo_execute. rewrite Hv. cbn [negb].
  rewrite Hnumber.
  rewrite assoc_set_prop_other by discriminate. rewrite Hnumber.
  rewrite member_run.
  eexists. split.
  - destruct number; try congruence; rewrite bind_returns; reflexivity.
  - split; [| split; [| split]].
    + rewrite !assoc_set_prop_other by discriminate. apply assoc_set_prop_same.
    + rewrite assoc_set_prop_other by discriminate. apply assoc_set_prop_same.
    + apply assoc_set_prop_same.
    + intros k Hf Hi Hc.
      rewrite !assoc_set_prop_other by congruence. reflexivity.
Qed.

Lemma PhoneNumberInfo_result_witness :
  exists result,
    outcome (Phone.PhoneNumberInfo_execute Phone.sample_lib "+19164451254" None) =
      Returns (JObj result) /\
    assoc "input" result = Some (JStr "+19164451254") /\
    assoc "countryCode" result = Some (JNum 1) /\
    assoc "regionCode" result = Some (JStr "US").
Proof.
  destruct (PhoneNumberInfo_result Phone.sample_lib "+19164451254" None
              (JObj [("input", JStr "+19164451254");
                     ("e164", JStr "+19164451254");
                     ("national", JStr "(916) 445-1254")])
              eq_refl eq_refl) as [result [Hrun [_ [Hinput [Hcode Hrest]]]]].
  - discriminate.
  - exists result. split; [exact Hrun |]. split; [exact Hinput |].
    split; [exact Hcode |].
    rewrite Hrest by discriminate. reflexivity.
Defined.

Lemma FormatPhoneNumber_returns_iff_witness :
  outcome (Phone.FormatPhoneNumber_execute Phone.sample_lib "+19164451254" None
             (Some "national")) = Returns "(916) 445-1254".
Proof.
  apply (proj2 (FormatPhoneNumber_returns_iff Phone.sample_lib "+19164451254" None
                  (Some "national") "(916) 445-1254")).
  split; [reflexivity |]. split; [| reflexivity].
  right. simpl. right. left. reflexivity.
Defined.

Lemma autocomplete_offers_accepted_formats_witness :
  outcome (Phone.FormatPhoneNumber_execute Phone.sample_lib "+19164451254" None
             (Some "rfc3966")) = Returns "tel:+1-916-445-1254".
Proof.
  apply (proj2 (autocomplete_offers_accepted_formats Phone.sample_lib
                  "+19164451254" None)
           (JObj [("display", JStr "rfc3966 - tel:+1-916-445-1254");
                  ("value", JStr "rfc3966")]) "rfc3966").
  - simpl. right. right. right. left. reflexivity.
  - reflexivity.
  - reflexivity.
Defined.

(* ------------------------------------------------------------------------- *)
(** ** Two more edges of the Packs pack *)

(** X16. No rollback.  When the categories were edited and every category
    job succeeded, a PATCH request that fails makes the update throw the
    fetcher's error, and the failed request is the last thing the run does:
    the removals and additions were started and joined before it and
    nothing is started to undo them. *)
Theorem patch_failure_keeps_category_changes E update rest context prev new e :
  In "categories" (updatedFields update) ->
  as_array (get "categories" (previousValue update)) = Some prev ->
  as_array (get "categories" (newValue update)) = Some new ->
  let jobs := removal_jobs (newValue update) prev new
              ++ addition_jobs (newValue update) prev new in
  (forall j, In j jobs -> rejects (settles E context j) = false) ->
  fetch E (patch_request E context update) = Throws e ->
  SyncMyPacks_executeUpdate E (update :: rest) context =
  (map EvStart jobs ++ [EvAwaitAll jobs; EvFetch (patch_request E context update)],
   Throws e).
Proof.
  intros Hedited Hprev Hnew jobs Hfine Hpatch.
  apply includes_str_In in Hedited.
  rewrite (executeUpdate_run_edited E update rest context prev new Hedited Hprev Hnew).
  fold jobs.
  rewrite Promise_all_fulfils.
  - now rewrite Hpatch.
  - intros p Hp. apply in_map_iff in Hp. destruct Hp as [j [<- Hj]].
    now apply Hfine.
Qed.

Lemma patch_failure_keeps_category_changes_witness :
  SyncMyPacks_executeUpdate Cases.offline [Demo.edit] Demo.fresh =
  ([EvStart (RemoveCategory (Some (JNum 7)) (JStr "A"));
    EvStart (AddCategory (Some (JNum 7)) (JStr "C"));
    EvAwaitAll [RemoveCategory (Some (JNum 7)) (JStr "A");
                AddCategory (Some (JNum 7)) (JStr "C")];
    EvFetch (patch_request Cases.offline Demo.fresh Demo.edit)],
   Throws (TransportError "offline")).
Proof.
  apply (patch_failure_keeps_category_changes Cases.offline Demo.edit [] Demo.fresh
           [JStr "A"; JStr "B"] [JStr "B"; JStr "C"] (TransportError "offline")).
  - simpl. right. now left.
  - reflexivity.
  - reflexivity.
  - intros j [<- | [<- | []]]; reflexivity.
  - reflexivity.
Defined.

(** X17. A page whose [items] is the empty array: SyncPacks returns an
    empty result, with the continuation the page's link gives, and still
    starts the handler of every requested key (on the empty page) before it
    returns. *)
Theorem empty_page_returns_nothing E args context response :
  let keys := match metadata args with Some m => m | None => [] end in
  (forall k, In k keys -> assoc k (MetadataTypes E) <> None) ->
  attach_only E ->
  fetch E (GET (SyncPacks_url E args context)) = Returns response ->
  as_array (get "items" (Response.body response)) = Some [] ->
  outcome (SyncPacks_execute E args context) =
    Returns {| result := [];
               continuation :=
                 derive_continuation (get "nextPageLink" (Response.body response)) |} /\
  started (trace (SyncPacks_execute E args context)) = map Enrich keys.
Proof.
  intros keys Hreg Hattach Hfetch Hitems.
  rewrite (SyncPacks_run E args context response [] Hreg Hfetch Hitems).
  fold keys. simpl map at 1.
  assert (Hempty : enriched E context keys [] = []).
  { pose proof (enriched_extends E context keys Hattach []) as Hext.
    now inversion Hext. }
  split; [simpl; now rewrite Hempty |].
  simpl. rewrite started_app. simpl. rewrite app_nil_r.
  rewrite <- map_map with (f := Enrich) (g := EvStart).
  apply started_starts.
Qed.

Lemma empty_page_returns_nothing_witness :
  outcome (SyncPacks_execute Demo.world (Demo.args (Some ["stats"])) Demo.resumed) =
    Returns {| result := []; continuation := None |} /\
  started (trace (SyncPacks_execute Demo.world (Demo.args (Some ["stats"])) Demo.resumed)) =
    [Enrich "stats"].
Proof.
  assert (Hreg : forall k, In k ["stats"] -> assoc k (MetadataTypes Demo.world) <> None).
  { intros k [<- | []]. discriminate. }
  apply (empty_page_returns_nothing Demo.world (Demo.args (Some ["stats"])) Demo.resumed
           {| Response.status := 200; Response.body := JObj [("items", JArr [])] |}
           Hreg Demo_attach_only eq_refl eq_refl).
Defined.
